(** * go-xvid: the C side of the cgo bridge ([goxvid.h], [goxvid.c])

    The bridge consists of three re-typed flag constants, two extractors that
    copy the frame arm or the stream arm out of the decoder's statistics
    structure, and a trampoline that forwards the codec's plugin callback to
    the handler exported by the host.

    The C functions are written as programs of a small machine monad over a
    byte-addressed memory (coqutil's [Map.Memory]).  A load from an unmapped
    address is undefined behaviour; every load and every call of the host
    handler is recorded in a trace.  What the target fixes and the sources
    do not is a parameter: the width of a pointer (32 or 64 bits), the byte
    order, and the offsets of the members of the native statistics
    structure.  [int] is 32 bits wide. *)

From Stdlib Require Import ZArith Lia List.
From coqutil Require Import Byte.
From coqutil Require Import Word.Interface Word.Properties Word.Bitwidth.
From coqutil Require Import Word.Naive Word.Bitwidth32 Word.Bitwidth64.
From coqutil Require Import Word.LittleEndianList.
From coqutil Require Import Map.Interface Map.Properties Map.Memory.
From coqutil Require Import Map.OfListWord Map.SortedListWord.
From ExtLib Require Import Structures.Monad.
Import ListNotations.
Import MonadNotation.
Local Open Scope Z_scope.
Local Open Scope monad_scope.

(** ** C integers

    [int] and [unsigned int] are 32 bits wide on every target of cgo
    ([C.int] is [int32], [C.uint] is [uint32]).  Values are kept in [Z] and
    the wrap-around of each conversion is written out. *)

Definition INT_MIN : Z := - 2 ^ 31.
Definition INT_MAX : Z := 2 ^ 31 - 1.
Definition UINT_MAX : Z := 2 ^ 32 - 1.

Definition int_range (z : Z) : Prop := INT_MIN <= z <= INT_MAX.
Definition uint_range (z : Z) : Prop := 0 <= z <= UINT_MAX.

(** Two's complement reading of the low 32 bits. *)
Definition wrap_int (z : Z) : Z := (z + 2 ^ 31) mod 2 ^ 32 - 2 ^ 31.

(** Conversion to [unsigned int]: reduction modulo [2^32]. *)
Definition wrap_uint (z : Z) : Z := z mod 2 ^ 32.

(** [a << n] on [int], as gcc and clang evaluate it (the shifted-out value
    wraps into the sign bit). *)
Definition int_shl (a n : Z) : Z := wrap_int (Z.shiftl a n).

(** The 32-bit object representation of an integer, as a bit pattern. *)
Definition bits32 (z : Z) : Z := Z.land z (Z.ones 32).

(** ** Constant bridge ([goxvid.c], lines 3-5) *)

(** Modelled from the spec: the three flag macros of the native header
    [xvid.h], which is not part of the bridge's sources.  [goxvid.h] records
    their literal definition in its comment: "value = 1<<31". *)
Definition XVID_CPU_FORCE : Z := int_shl 1 31.
Definition XVID_DEBUG_DEBUG : Z := int_shl 1 31.
Definition XVID_CSP_VFLIP : Z := int_shl 1 31.

(** [const unsigned int CPU_FORCE = XVID_CPU_FORCE;] and its two siblings:
    the initialiser is converted to [unsigned int]. *)
Definition CPU_FORCE : Z := wrap_uint XVID_CPU_FORCE.
Definition DEBUG_DEBUG : Z := wrap_uint XVID_DEBUG_DEBUG.
Definition CSP_VFLIP : Z := wrap_uint XVID_CSP_VFLIP.

(** What the bridge promises of a re-typed constant [c] with native literal
    [native]: [c] is a value of [unsigned int], and its 32-bit pattern is the
    native one. *)
Definition bridges (c native : Z) : Prop :=
  uint_range c /\ bits32 c = bits32 native.

(** ** Data model ([goxvid.h])

    Pointers are machine words of the target's width (32 or 64 bits); the
    null pointer is the word 0. *)

Inductive ctype : Type :=
| Tint   (* int *)
| Tptr.  (* int *, void * *)

(** Modelled from the spec: the members of [xvid_dec_stats_t] that the
    bridge deals with.  The structure is declared by the native header
    [xvid.h], which is not part of the bridge's sources; the spec describes
    it as a tag (frame or stream) and a union of a frame-level and a
    stream-level sub-structure.  The members of the two arms are the ones
    [vop_data] and [vol_data] name. *)
Inductive member : Type :=
| type_                     (* stats->type, the tag *)
| data_vop_general          (* stats->data.vop.general *)
| data_vop_time_base        (* stats->data.vop.time_base *)
| data_vop_time_increment   (* stats->data.vop.time_increment *)
| data_vop_qscale           (* stats->data.vop.qscale *)
| data_vop_qscale_stride    (* stats->data.vop.qscale_stride *)
| data_vol_general          (* stats->data.vol.general *)
| data_vol_width            (* stats->data.vol.width *)
| data_vol_height           (* stats->data.vol.height *)
| data_vol_par              (* stats->data.vol.par *)
| data_vol_par_width        (* stats->data.vol.par_width *)
| data_vol_par_height.      (* stats->data.vol.par_height *)

Definition member_type (f : member) : ctype :=
  match f with
  | data_vop_qscale => Tptr
  | _ => Tint
  end.

Definition vop_members : list member :=
  [data_vop_general; data_vop_time_base; data_vop_time_increment;
   data_vop_qscale; data_vop_qscale_stride].

Definition vol_members : list member :=
  [data_vol_general; data_vol_width; data_vol_height;
   data_vol_par; data_vol_par_width; data_vol_par_height].

(** *** Object representations

    The byte order is the target's: cgo runs on little-endian and on
    big-endian machines. *)
Class ByteOrder : Type := big_endian : bool.

Section Bytes.
Context {bo : ByteOrder}.

(** The [n] bytes that hold the unsigned number [z mod 2^(8n)], in memory
    order. *)
Definition to_bytes (n : nat) (z : Z) : list byte :=
  if big_endian then rev (le_split n z) else le_split n z.

(** The unsigned number a sequence of bytes holds. *)
Definition of_bytes (bs : list byte) : Z :=
  le_combine (if big_endian then rev bs else bs).

(** An [int] takes four bytes, in two's complement. *)
Definition encode_int (z : Z) : list byte := to_bytes 4 z.
Definition decode_int (bs : list byte) : Z := wrap_int (of_bytes bs).
End Bytes.

(** [vol_t] ([goxvid.h], lines 24-31): six [int] members.  The record does
    not mention the pointer type at all. *)
Record vol_t : Type := {
  vol_general : Z;
  vol_width : Z;
  vol_height : Z;
  vol_par : Z;
  vol_par_width : Z;
  vol_par_height : Z
}.

Section Machine.
Context {width : Z} {word : word.word width} {mem : map.map word byte}.
Context {bo : ByteOrder}.

(** The private state of the host runtime, opaque to the C side. *)
Context {host : Type}.

Definition NULL : word := word.of_Z 0.

Definition sizeof (t : ctype) : nat :=
  match t with
  | Tint => 4%nat
  | Tptr => Z.to_nat (bytes_per_word width)
  end.

(** A pointer takes a machine word; its representation is its address. *)
Definition encode_ptr (p : word) : list byte :=
  to_bytes (sizeof Tptr) (word.unsigned p).
Definition decode_ptr (bs : list byte) : word := word.of_Z (of_bytes bs).

(** [vop_t] ([goxvid.h], lines 14-20): four [int] members and the
    pointer [int * qscale]. *)
Record vop_t : Type := {
  vop_general : Z;
  vop_time_base : Z;
  vop_time_increment : Z;
  vop_qscale : word;
  vop_qscale_stride : Z
}.

(** The members of a frame record as numbers, the pointer as its address. *)
Definition vop_values (r : vop_t) : Z * Z * Z * Z * Z :=
  (vop_general r, vop_time_base r, vop_time_increment r,
   word.unsigned (vop_qscale r), vop_qscale_stride r).

(** *** The machine *)

(** What the C code does that can be observed: [EvLoad a n], it read [n]
    bytes at address [a]; [EvCall handle opt param1 param2], it called the
    host's [pluginCallback].  What the handler does inside is its own
    matter and is not recorded. *)
Inductive event : Type :=
| EvLoad (a : word) (n : nat)
| EvCall (handle : word) (opt : Z) (param1 param2 : word).

Record state : Type := {
  st_mem : mem;
  st_host : host;
  st_trace : list event
}.

(** How a run ends: the function returned [a] in state [s]; or the host
    handler never returned; or the run met undefined behaviour (an invalid
    access). *)
Inductive outcome (A : Type) : Type :=
| Returned (a : A) (s : state)
| Aborted (tr : list event)
| Undefined.
Arguments Returned {A} a s.
Arguments Aborted {A} tr.
Arguments Undefined {A}.

Definition M (A : Type) : Type := state -> outcome A.

#[global] Instance Monad_M : Monad M := {|
  ret := fun A (a : A) s => Returned a s;
  bind := fun A B (c : M A) (k : A -> M B) s =>
    match c s with
    | Returned a s' => k a s'
    | Aborted tr => Aborted tr
    | Undefined => Undefined
    end
|}.

Definition log (e : event) (s : state) : state :=
  {| st_mem := st_mem s; st_host := st_host s;
     st_trace := st_trace s ++ [e] |}.

(** A load of [n] bytes at [a]; undefined if one of them is unmapped. *)
Definition load (a : word) (n : nat) : M (list byte) :=
  fun s =>
    match load_bytes (st_mem s) a n with
    | Some bs => Returned bs (log (EvLoad a n) s)
    | None => Undefined
    end.

Definition load_int (a : word) : M Z :=
  bs <- load a (sizeof Tint) ;; ret (decode_int bs).

Definition load_ptr (a : word) : M word :=
  bs <- load a (sizeof Tptr) ;; ret (decode_ptr bs).

(** What the host's handler does with a callback event: it may change
    memory and its own state and return an [int], or never return. *)
Inductive handler_result : Type :=
| HReturn (v : Z) (m : mem) (h : host)
| HAbort.

Definition handler : Type :=
  word -> Z -> word -> word -> mem -> host -> handler_result.

Definition call_extern (f : handler)
    (handle : word) (opt : Z) (param1 param2 : word) : M Z :=
  fun s =>
    let tr := st_trace s ++ [EvCall handle opt param1 param2] in
    match f handle opt param1 param2 (st_mem s) (st_host s) with
    | HReturn v m h =>
        Returned v {| st_mem := m; st_host := h; st_trace := tr |}
    | HAbort => Aborted tr
    end.

(** *** Layout of the statistics structure

    The offsets of the members are fixed by the target's ABI, not by the
    bridge; they are a parameter of the extractors. *)
Section Layout.
Variable offsetof : member -> Z.

(** The lvalue [stats->f]. *)
Definition lval (stats : word) (f : member) : word :=
  word.add stats (word.of_Z (offsetof f)).

(** [vop_data] ([goxvid.c], lines 7-9).  The initialisers of the compound
    literal are evaluated in an unspecified order; they only read, so
    every order gives the same record. *)
Definition vop_data (stats : word) : M vop_t :=
  general <- load_int (lval stats data_vop_general) ;;
  time_base <- load_int (lval stats data_vop_time_base) ;;
  time_increment <- load_int (lval stats data_vop_time_increment) ;;
  qscale <- load_ptr (lval stats data_vop_qscale) ;;
  qscale_stride <- load_int (lval stats data_vop_qscale_stride) ;;
  ret {| vop_general := general;
         vop_time_base := time_base;
         vop_time_increment := time_increment;
         vop_qscale := qscale;
         vop_qscale_stride := qscale_stride |}.

(** [vol_data] ([goxvid.c], lines 11-13). *)
Definition vol_data (stats : word) : M vol_t :=
  general <- load_int (lval stats data_vol_general) ;;
  width_ <- load_int (lval stats data_vol_width) ;;
  height <- load_int (lval stats data_vol_height) ;;
  par <- load_int (lval stats data_vol_par) ;;
  par_width <- load_int (lval stats data_vol_par_width) ;;
  par_height <- load_int (lval stats data_vol_par_height) ;;
  ret {| vol_general := general;
         vol_width := width_;
         vol_height := height;
         vol_par := par;
         vol_par_width := par_width;
         vol_par_height := par_height |}.
End Layout.

(** [pluginCallback_cgo] ([goxvid.c], lines 15-18).  [pluginCallback] is
    the symbol exported by the host; the linker binds it, the C code holds
    no handler slot of its own. *)
Definition pluginCallback_cgo (pluginCallback : handler)
    (handle : word) (opt : Z) (param1 param2 : word) : M Z :=
  r <- call_extern pluginCallback handle opt param1 param2 ;;
  ret r.
End Machine.

Arguments Returned {width word mem host A} a s.
Arguments Aborted {width word mem host A} tr.
Arguments Undefined {width word mem host A}.

(** ** Observations and representation predicates *)

Section Observations.
Context {width : Z} {word : word.word width} {mem : map.map word byte}.
Context {bo : ByteOrder} {host : Type}.

Local Abbreviation state := (@state width word mem host).
Local Abbreviation outcome := (@outcome width word mem host).
Local Abbreviation event := (@event width word).
Local Abbreviation handler_result := (@handler_result width word mem host).

(** The value a run returned, if it returned. *)
Definition result {A : Type} (o : outcome A) : option A :=
  match o with
  | Returned a _ => Some a
  | _ => None
  end.

(** The trace at the end of a run. *)
Definition trace_of {A : Type} (o : outcome A) : list event :=
  match o with
  | Returned _ s => st_trace s
  | Aborted tr => tr
  | Undefined => []
  end.

(** The calls of the host handler recorded in a trace, oldest first. *)
Definition calls (tr : list event) : list (word * Z * word * word) :=
  flat_map (fun e =>
              match e with
              | EvCall handle opt param1 param2 =>
                  [(handle, opt, param1, param2)]
              | EvLoad _ _ => []
              end) tr.

(** The loads recorded in a trace, oldest first. *)
Definition loads (tr : list event) : list (word * nat) :=
  flat_map (fun e =>
              match e with
              | EvLoad a n => [(a, n)]
              | EvCall _ _ _ _ => []
              end) tr.

(** State [s] after the loads [l] have been recorded, oldest first. *)
Definition after_loads (s : state) (l : list (word * nat)) : state :=
  {| st_mem := st_mem s; st_host := st_host s;
     st_trace := st_trace s ++ List.map (fun x => EvLoad (fst x) (snd x)) l |}.

(** The integer the handler handed back, if it returned. *)
Definition handler_value (r : handler_result) : option Z :=
  match r with
  | HReturn v _ _ => Some v
  | HAbort => None
  end.

(** Reading a member without running the machine. *)
Definition read_int (m : mem) (a : word) : option Z :=
  option_map decode_int (load_bytes m a (sizeof (width := width) Tint)).

Definition read_ptr (m : mem) (a : word) : option word :=
  option_map decode_ptr (load_bytes m a (sizeof (width := width) Tptr)).

(** [n] consecutive [int]s starting at [p]: the sequence a pointer such as
    [qscale] refers to. *)
Fixpoint load_ints (m : mem) (p : word) (n : nat) : option (list Z) :=
  match n with
  | O => Some []
  | S n' =>
      match read_int m p, load_ints m (word.add p (word.of_Z 4)) n' with
      | Some z, Some zs => Some (z :: zs)
      | _, _ => None
      end
  end.

(** Memory at [a] holds the object representation of the [int] [v]. *)
Definition holds_int (m : mem) (a : word) (v : Z) : Prop :=
  int_range v /\ load_bytes m a (sizeof (width := width) Tint) = Some (encode_int v).

(** Memory at [a] holds the object representation of the pointer [p]. *)
Definition holds_ptr (m : mem) (a : word) (p : word) : Prop :=
  load_bytes m a (sizeof (width := width) Tptr) = Some (encode_ptr p).

(** Two memories agree on the [n] bytes at [a]. *)
Definition agree_on (m1 m2 : mem) (a : word) (n : nat) : Prop :=
  Forall (fun x => map.get m1 x = map.get m2 x) (footprint a n).

Section Layout.
Variable offsetof : member -> Z.

(** The blob at [stats] is a valid object: every member can be read. *)
Definition readable (m : mem) (stats : word) : Prop :=
  forall f : member,
    load_bytes m (lval offsetof stats f)
               (sizeof (width := width) (member_type f)) <> None.

(** A valid frame blob: the frame arm of the blob at [stats] holds the
    values of [v]. *)
Definition frame_blob (m : mem) (stats : word) (v : vop_t) : Prop :=
  holds_int m (lval offsetof stats data_vop_general) (vop_general v) /\
  holds_int m (lval offsetof stats data_vop_time_base) (vop_time_base v) /\
  holds_int m (lval offsetof stats data_vop_time_increment)
            (vop_time_increment v) /\
  holds_ptr m (lval offsetof stats data_vop_qscale) (vop_qscale v) /\
  holds_int m (lval offsetof stats data_vop_qscale_stride)
            (vop_qscale_stride v).

(** A valid stream blob: the stream arm holds the values of [v]. *)
Definition stream_blob (m : mem) (stats : word) (v : vol_t) : Prop :=
  holds_int m (lval offsetof stats data_vol_general) (vol_general v) /\
  holds_int m (lval offsetof stats data_vol_width) (vol_width v) /\
  holds_int m (lval offsetof stats data_vol_height) (vol_height v) /\
  holds_int m (lval offsetof stats data_vol_par) (vol_par v) /\
  holds_int m (lval offsetof stats data_vol_par_width) (vol_par_width v) /\
  holds_int m (lval offsetof stats data_vol_par_height) (vol_par_height v).

(** The frame arm as it reads in memory, member by member. *)
Definition read_vop (m : mem) (stats : word) : option vop_t :=
  match read_int m (lval offsetof stats data_vop_general),
        read_int m (lval offsetof stats data_vop_time_base),
        read_int m (lval offsetof stats data_vop_time_increment),
        read_ptr m (lval offsetof stats data_vop_qscale),
        read_int m (lval offsetof stats data_vop_qscale_stride) with
  | Some g, Some tb, Some ti, Some q, Some qs =>
      Some {| vop_general := g; vop_time_base := tb;
              vop_time_increment := ti; vop_qscale := q;
              vop_qscale_stride := qs |}
  | _, _, _, _, _ => None
  end.

(** The stream arm as it reads in memory, member by member. *)
Definition read_vol (m : mem) (stats : word) : option vol_t :=
  match read_int m (lval offsetof stats data_vol_general),
        read_int m (lval offsetof stats data_vol_width),
        read_int m (lval offsetof stats data_vol_height),
        read_int m (lval offsetof stats data_vol_par),
        read_int m (lval offsetof stats data_vol_par_width),
        read_int m (lval offsetof stats data_vol_par_height) with
  | Some g, Some w, Some h, Some p, Some pw, Some ph =>
      Some {| vol_general := g; vol_width := w; vol_height := h;
              vol_par := p; vol_par_width := pw; vol_par_height := ph |}
  | _, _, _, _, _, _ => None
  end.

(** The loads the two extractors issue. *)
Definition member_load (stats : word) (f : member) : word * nat :=
  (lval offsetof stats f, sizeof (width := width) (member_type f)).

(** The blobs at [stats1] in [m1] and at [stats2] in [m2] have equal
    contents: every member holds the same bytes. *)
Definition same_contents (m1 : mem) (stats1 : word)
    (m2 : mem) (stats2 : word) : Prop :=
  forall f : member,
    load_bytes m1 (lval offsetof stats1 f)
               (sizeof (width := width) (member_type f)) =
    load_bytes m2 (lval offsetof stats2 f)
               (sizeof (width := width) (member_type f)).

(** The value of member [f], as an [int] or as a pointer. *)
Definition read_member (m : mem) (stats : word) (f : member)
  : option (Z + word) :=
  match member_type f with
  | Tint => option_map inl (read_int m (lval offsetof stats f))
  | Tptr => option_map inr (read_ptr m (lval offsetof stats f))
  end.

(** Two blobs whose members [fs] are pairwise equal. *)
Definition same_members (fs : list member) (m1 : mem) (stats1 : word)
    (m2 : mem) (stats2 : word) : Prop :=
  Forall (fun f => read_member m1 stats1 f = read_member m2 stats2 f) fs.

(** Two memories agree on the bytes of the members [fs] of the blob at
    [stats]. *)
Definition agree_on_members (fs : list member) (stats : word)
    (m1 m2 : mem) : Prop :=
  Forall (fun f => agree_on m1 m2 (lval offsetof stats f)
                     (sizeof (width := width) (member_type f))) fs.

(** The tag lies apart from member [f]: it ends before [f] starts, and
    [f] ends within the address space. *)
Definition tag_before (f : member) : Prop :=
  0 <= offsetof type_ /\
  offsetof type_ + 4 <= offsetof f /\
  offsetof f + Z.of_nat (sizeof (width := width) (member_type f))
    <= 2 ^ width.

(** The memory after the tag of the blob at [stats] has been overwritten
    with the bytes [bs]. *)
Definition retag (stats : word) (bs : list byte) (m : mem) : mem :=
  map.putmany m (map.of_list_word_at (lval offsetof stats type_) bs).

(** Two memories that differ at most in the bytes of the tag. *)
Definition same_but_tag (stats : word) (m1 m2 : mem) : Prop :=
  forall a : word,
    ~ In a (footprint (lval offsetof stats type_) 4) ->
    map.get m1 a = map.get m2 a.
End Layout.
End Observations.

(** ** Failing loudly *)

Section Loud.
Context {width : Z} {word : word.word width} {mem : map.map word byte}.
Context {host : Type}.

(** A run of the trampoline fails loudly if it does not return, or returns
    a value that [sentinel] marks as one the native caller can tell from a
    handler's ordinary result. *)
Definition fails_loudly (sentinel : Z -> bool)
    (o : @outcome width word mem host Z) : Prop :=
  match o with
  | Aborted _ => True
  | Returned v _ => sentinel v = true
  | Undefined => False
  end.


(** *** Where the handler comes from

    [goxvid.c], line 16, declares [pluginCallback] inside the trampoline
    and defines it nowhere: the bridge is a translation unit with one open
    external symbol.  It holds no pointer to a handler, no variable that
    could be empty, and no entry point that installs one.  The handler is
    the definition the linker is given for that symbol; where none is
    given no program comes about, and there is no trampoline to invoke. *)
Definition trampoline : Type :=
  word -> Z -> word -> word -> @M width word mem host Z.

(** A bridge turns the handler it is given, if any, into the trampoline
    native code may call, if any. *)
Definition bridge : Type := option (@handler width word mem host) ->
                            option trampoline.


(** Modelled from the spec: the handler slot.  The spec describes another
    bridge, one that keeps a single handler-target slot, written once by a
    registration entry point; its trampoline exists from the start,
    locates the registered handler and, finding the slot empty, aborts
    instead of answering the native caller.  No such slot is in
    [goxvid.c]; the definition serves for comparison with [link] only. *)
Definition slot_bridge : bridge :=
  fun slot =>
    Some (fun handle opt param1 param2 =>
            match slot with
            | Some registered =>
                pluginCallback_cgo registered handle opt param1 param2
            | None => fun s => Aborted (st_trace s)
            end).

(** What the spec asks of a bridge with no handler: native code can reach
    the trampoline all the same, and every such call fails loudly. *)
Definition loud_without_handler (sentinel : Z -> bool) (b : bridge)
    : Prop :=
  exists t : trampoline,
    b None = Some t /\
    forall (handle : word) (opt : Z) (param1 param2 : word)
           (s : @state width word mem host),
      fails_loudly sentinel (t handle opt param1 param2 s).
End Loud.

(** ** A concrete target: LP64, little-endian (x86-64, arm64) *)

Module LP64.
#[global] Instance order : ByteOrder := false.
Definition word : word.word 64 := Naive.word64.
Definition mem : map.map word byte := SortedListWord.map Naive.word64 byte.

(** Modelled from the spec: the offsets the System V LP64 ABI gives the
    native declaration [struct { int version; int type; union { struct {
    int general; int time_base; int time_increment; int * qscale;
    int qscale_stride; } vop; struct { int general; int width; int height;
    int par; int par_width; int par_height; } vol; } data; }]:
    the union starts at byte 8, and [qscale] is aligned to 8 bytes. *)
Definition offsetof (f : member) : Z :=
  match f with
  | type_ => 4
  | data_vop_general => 8
  | data_vop_time_base => 12
  | data_vop_time_increment => 16
  | data_vop_qscale => 24
  | data_vop_qscale_stride => 32
  | data_vol_general => 8
  | data_vol_width => 12
  | data_vol_height => 16
  | data_vol_par => 20
  | data_vol_par_width => 24
  | data_vol_par_height => 28
  end.

Definition ptr (a : Z) : word := word.of_Z a.
Definition pad (n : nat) : list byte := repeat Byte.x00 n.

(** Where the sample blob and the sample quantizer buffer live. *)
Definition stats : word := ptr 4096.
Definition qbuf : word := ptr 8192.

(** The 22 quantizer values of the sample frame. *)
Definition quantizers : list Z :=
  [2; 2; 3; 3; 4; 4; 5; 5; 6; 6; 7; 7; 8; 8; 9; 9; 10; 10; 11; 11; 12; 12].

(** The frame of the spec's scenario: [general = 3], [time_base = 25],
    [time_increment = 1], [qscale_stride = 11]. *)
Definition frame : @vop_t 64 word :=
  {| vop_general := 3; vop_time_base := 25; vop_time_increment := 1;
     vop_qscale := qbuf; vop_qscale_stride := 11 |}.

(** The bytes of a blob that holds a frame; [hole] fills the four bytes
    the ABI leaves unused in front of [qscale]. *)
Definition frame_bytes (tag : Z) (v : @vop_t 64 word) (hole : list byte)
  : list byte :=
  encode_int 10 (* version *) ++ encode_int tag ++
  encode_int (vop_general v) ++ encode_int (vop_time_base v) ++
  encode_int (vop_time_increment v) ++ hole ++
  encode_ptr (vop_qscale v) ++
  encode_int (vop_qscale_stride v) ++ pad 4.

(** The decoder has written a frame at [stats] and its quantizers at
    [qbuf]; nothing else is mapped. *)
Definition frame_mem : mem :=
  map.putmany
    (map.of_list_word_at stats (frame_bytes 1 frame (pad 4)))
    (map.of_list_word_at qbuf (flat_map encode_int quantizers)).

(** A second blob with the same contents, at another address of another
    memory. *)
Definition stats2 : word := ptr 16384.
Definition frame_mem2 : mem :=
  map.of_list_word_at stats2 (frame_bytes 1 frame (pad 4)).

(** The same frame under another tag and with other bytes in the hole
    (where the stream arm has its [par]). *)
Definition frame_mem' : mem :=
  map.of_list_word_at stats (frame_bytes 5 frame (encode_int 77)).

(** The same frame without a quantizer table: [qscale] is null. *)
Definition frame_noq : @vop_t 64 word :=
  {| vop_general := 3; vop_time_base := 25; vop_time_increment := 1;
     vop_qscale := NULL; vop_qscale_stride := 0 |}.

Definition frame_noq_mem : mem :=
  map.of_list_word_at stats (frame_bytes 1 frame_noq (pad 4)).

(** A stream of 640 by 480 pixels with a custom 16:11 pixel aspect. *)
Definition stream : vol_t :=
  {| vol_general := 0; vol_width := 640; vol_height := 480;
     vol_par := 15; vol_par_width := 16; vol_par_height := 11 |}.

Definition stream_bytes (tag : Z) (v : vol_t) (rest : list byte)
  : list byte :=
  encode_int 10 (* version *) ++ encode_int tag ++
  encode_int (vol_general v) ++ encode_int (vol_width v) ++
  encode_int (vol_height v) ++ encode_int (vol_par v) ++
  encode_int (vol_par_width v) ++ encode_int (vol_par_height v) ++
  rest.

(** The decoder has written a stream description at [stats]; the last
    eight bytes of the union still hold what an earlier frame left. *)
Definition stream_mem : mem :=
  map.of_list_word_at stats
    (stream_bytes 2 stream (encode_int 11 ++ pad 4)).

(** The same stream under another tag and with other left-over bytes. *)
Definition stream_mem' : mem :=
  map.of_list_word_at stats
    (stream_bytes 7 stream (encode_int 99 ++ pad 4)).

(** Machine states over these memories; the host keeps a journal of the
    callback events it received. *)
Definition host : Type := list (word * Z * word * word).

Definition init (m : mem) : @state 64 word mem host :=
  {| st_mem := m; st_host := []; st_trace := [] |}.

(** The handler of the spec's scenario, [H(h, o, p1, p2) = 42]; it notes
    each event in the journal. *)
Definition H42 : @handler 64 word mem host :=
  fun handle opt param1 param2 m journal =>
    HReturn 42 m (journal ++ [(handle, opt, param1, param2)]).

(** A handler that answers with its two parameters, taken as numbers, so
    that its answer tells which parameters it was given. *)
Definition Hparams : @handler 64 word mem host :=
  fun handle opt param1 param2 m journal =>
    HReturn (wrap_int (word.unsigned param1 + word.unsigned param2)) m
      (journal ++ [(handle, opt, param1, param2)]).



(** Nothing mapped, nothing received yet. *)
Definition idle : @state 64 word mem host :=
  {| st_mem := map.empty; st_host := []; st_trace := [] |}.
End LP64.

(** ** A second target: ILP32, big-endian (mips, ppc) *)

Module ILP32BE.
Definition order : ByteOrder := true.
Definition word : word.word 32 := Naive.word32.
Definition mem : map.map word byte := SortedListWord.map Naive.word32 byte.

(** Modelled from the spec: the offsets of the same native declaration
    where pointers are four bytes wide; the frame arm has no hole. *)
Definition offsetof (f : member) : Z :=
  match f with
  | type_ => 4
  | data_vop_general => 8
  | data_vop_time_base => 12
  | data_vop_time_increment => 16
  | data_vop_qscale => 20
  | data_vop_qscale_stride => 24
  | data_vol_general => 8
  | data_vol_width => 12
  | data_vol_height => 16
  | data_vol_par => 20
  | data_vol_par_width => 24
  | data_vol_par_height => 28
  end.

Definition stats : word := word.of_Z 4096.

(** The decoder has written the sample stream at [stats]. *)
Definition stream_mem : mem :=
  map.of_list_word_at stats
    (flat_map (encode_int (bo := order))
       [10 (* version *); 2 (* tag *);
        vol_general LP64.stream; vol_width LP64.stream;
        vol_height LP64.stream; vol_par LP64.stream;
        vol_par_width LP64.stream; vol_par_height LP64.stream]).

Definition init (m : mem) : @state 32 word mem unit :=
  {| st_mem := m; st_host := tt; st_trace := [] |}.
End ILP32BE.

(** ** Using the bridge

    What a user of the three functions can observe beyond a single call:
    which bytes an extractor touches, what it needs to be mapped, and what
    a series of callback events looks like from the C side. *)

Section Usage.
Context {width : Z} {word : word.word width} {mem : map.map word byte}.
Context {bo : ByteOrder} {host : Type}.

(** The addresses of all the bytes a trace has read, oldest first. *)
Definition bytes_read (tr : list (@event width word)) : list word :=
  flat_map (fun x => footprint (fst x) (snd x)) (loads tr).

(** Address [a] lies within the [size] bytes of the object at [stats]. *)
Definition within (stats : word) (size : Z) (a : word) : Prop :=
  exists k : Z, 0 <= k < size /\ a = word.add stats (word.of_Z k).

(** The record a callback event leaves in the trace. *)
Definition call_event (e : word * Z * word * word) : @event width word :=
  let '(handle, opt, param1, param2) := e in
  EvCall handle opt param1 param2.

(** The native library raises a series of callback events, one after the
    other; each goes through [pluginCallback_cgo], and the codes it gets
    back are collected in order. *)
Fixpoint deliver (pluginCallback : @handler width word mem host)
    (es : list (word * Z * word * word)) : M (list Z) :=
  match es with
  | [] => ret []
  | (handle, opt, param1, param2) :: es' =>
      r <- pluginCallback_cgo pluginCallback handle opt param1 param2 ;;
      rs <- deliver pluginCallback es' ;;
      ret (r :: rs)
  end.

(** What the handler alone makes of the same events, called directly and
    each time on the memory and host state its previous invocation left:
    the codes it returns, or nothing if one invocation never returns. *)
Fixpoint answers (pluginCallback : @handler width word mem host)
    (es : list (word * Z * word * word)) (m : mem) (h : host)
  : option (list Z * mem * host) :=
  match es with
  | [] => Some ([], m, h)
  | (handle, opt, param1, param2) :: es' =>
      match pluginCallback handle opt param1 param2 m h with
      | HReturn v m' h' =>
          match answers pluginCallback es' m' h' with
          | Some (vs, m'', h'') => Some (v :: vs, m'', h'')
          | None => None
          end
      | HAbort => None
      end
  end.

(** How many of the events reach the handler: all of them, or those up to
    and including the first one it does not return from. *)
Fixpoint delivered (pluginCallback : @handler width word mem host)
    (es : list (word * Z * word * word)) (m : mem) (h : host) : nat :=
  match es with
  | [] => O
  | (handle, opt, param1, param2) :: es' =>
      match pluginCallback handle opt param1 param2 m h with
      | HReturn _ m' h' => S (delivered pluginCallback es' m' h')
      | HAbort => 1%nat
      end
  end.

Section Layout.
Variable offsetof : member -> Z.

(** Every member of [fs] of the blob at [stats] can be read. *)
Definition members_readable (fs : list member) (m : mem) (stats : word)
  : Prop :=
  Forall (fun f => load_bytes m (lval offsetof stats f)
                     (sizeof (width := width) (member_type f)) <> None) fs.

(** The addresses of the bytes of the members [fs], member after member. *)
Definition member_bytes (stats : word) (fs : list member) : list word :=
  flat_map (fun f => footprint (lval offsetof stats f)
                       (sizeof (width := width) (member_type f))) fs.

(** Member [f] lies within the first [size] bytes of the structure. *)
Definition member_within (size : Z) (f : member) : Prop :=
  0 <= offsetof f /\
  offsetof f + Z.of_nat (sizeof (width := width) (member_type f)) <= size.

(** The two arms are members of one union, [stats->data], and both begin
    with three [int]s ([general], then [time_base] or [width], then
    [time_increment] or [height]); C lays out such a common initial
    sequence alike in both. *)
Definition common_initial_sequence : Prop :=
  offsetof data_vop_general = offsetof data_vol_general /\
  offsetof data_vop_time_base = offsetof data_vol_width /\
  offsetof data_vop_time_increment = offsetof data_vol_height.
End Layout.
End Usage.

(** More sample memories on the LP64 target. *)

Module LP64more.
(** [sizeof (xvid_dec_stats_t)] on LP64: two [int]s and a union of 32
    bytes. *)
Definition sizeof_stats : Z := 40.

(** An allocation that ends with the stream arm: 32 bytes, the last eight
    bytes of the union are not mapped. *)
Definition short_mem : LP64.mem :=
  map.of_list_word_at LP64.stats (LP64.stream_bytes 2 LP64.stream []).

(** Three callback events. *)
Definition events : list (LP64.word * Z * LP64.word * LP64.word) :=
  [(LP64.ptr 1, 7, NULL, NULL);
   (LP64.ptr 1, 8, LP64.stats, NULL);
   (LP64.ptr 2, 7, NULL, LP64.qbuf)].

(** A handler that serves one event, answering its option code, and
    gives up on the next; its state counts the events it has seen. *)
Definition Honce : @handler 64 LP64.word LP64.mem nat :=
  fun _ opt _ _ m seen =>
    if (seen <? 1)%nat then HReturn opt m (S seen) else HAbort.

Definition fresh : @state 64 LP64.word LP64.mem nat :=
  {| st_mem := map.empty; st_host := O; st_trace := [] |}.
End LP64more.

(** * Properties *)

(** ** C integers and object representations *)

Lemma wrap_int_range (z : Z) : int_range (wrap_int z).
Proof.
  unfold int_range, wrap_int, INT_MIN, INT_MAX.
  pose proof (Z.mod_pos_bound (z + 2 ^ 31) (2 ^ 32) ltac:(lia)). lia.
Qed.

Lemma wrap_int_mod (z : Z) : int_range z -> wrap_int (z mod 2 ^ 32) = z.
Proof.
  unfold int_range, wrap_int, INT_MIN, INT_MAX. intros Hz.
  rewrite Zplus_mod_idemp_l, Z.mod_small by lia. lia.
Qed.

Lemma wrap_uint_range (z : Z) : uint_range (wrap_uint z).
Proof.
  unfold uint_range, wrap_uint, UINT_MAX.
  pose proof (Z.mod_pos_bound z (2 ^ 32) ltac:(lia)). lia.
Qed.

(** Conversion to [unsigned int] keeps the 32-bit pattern. *)
Lemma wrap_uint_bits (z : Z) : bits32 (wrap_uint z) = bits32 z.
Proof.
  unfold bits32, wrap_uint. rewrite !Z.land_ones by lia.
  apply Z.mod_mod. lia.
Qed.

Lemma wrap_uint_bridges (native : Z) : bridges (wrap_uint native) native.
Proof. split; [apply wrap_uint_range | apply wrap_uint_bits]. Qed.

Section ByteLemmas.
Context {bo : ByteOrder}.

Lemma of_to_bytes (n : nat) (z : Z) :
  of_bytes (to_bytes n z) = z mod 2 ^ (Z.of_nat n * 8).
Proof.
  unfold of_bytes, to_bytes. destruct big_endian;
    rewrite ?rev_involutive; apply le_combine_split.
Qed.

Lemma to_of_bytes (bs : list byte) : to_bytes (length bs) (of_bytes bs) = bs.
Proof.
  unfold of_bytes, to_bytes. destruct big_endian.
  - rewrite <- (length_rev bs), split_le_combine. apply rev_involutive.
  - apply split_le_combine.
Qed.

Lemma to_bytes_mod (n : nat) (z : Z) :
  to_bytes n (z mod 2 ^ (Z.of_nat n * 8)) = to_bytes n z.
Proof. unfold to_bytes. now rewrite <- le_split_mod. Qed.

Lemma decode_int_range (bs : list byte) : int_range (decode_int bs).
Proof. apply wrap_int_range. Qed.

Lemma decode_encode_int (z : Z) : int_range z -> decode_int (encode_int z) = z.
Proof.
  intros Hz. unfold decode_int, encode_int.
  rewrite of_to_bytes. change (Z.of_nat 4 * 8) with 32.
  now apply wrap_int_mod.
Qed.

(** The bytes of an [int] are recovered from its value: decoding loses no
    bit. *)
Lemma encode_decode_int (bs : list byte) :
  length bs = 4%nat -> encode_int (decode_int bs) = bs.
Proof.
  intros Hlen. unfold encode_int, decode_int, wrap_int.
  rewrite <- to_bytes_mod.
  replace (((of_bytes bs + 2 ^ 31) mod 2 ^ 32 - 2 ^ 31)
             mod 2 ^ (Z.of_nat 4 * 8))
    with (of_bytes bs mod 2 ^ (Z.of_nat 4 * 8)).
  - rewrite to_bytes_mod, <- Hlen. apply to_of_bytes.
  - change (Z.of_nat 4 * 8) with 32.
    rewrite Zminus_mod_idemp_l. f_equal. lia.
Qed.
End ByteLemmas.

(** ** Pointers *)

Section Pointers.
Context {width : Z} {BW : Bitwidth width}.
Context {bo : ByteOrder}.
Context {word : word.word width} {word_ok : word.ok word}.

Lemma sizeof_ptr_bits : Z.of_nat (sizeof (width := width) Tptr) * 8 = width.
Proof.
  unfold sizeof, bytes_per_word.
  destruct (@width_cases width BW) as [-> | ->]; reflexivity.
Qed.

Lemma decode_encode_ptr (p : word) : decode_ptr (encode_ptr p) = p.
Proof.
  unfold decode_ptr, encode_ptr.
  rewrite of_to_bytes, sizeof_ptr_bits.
  rewrite Z.mod_small by apply word.unsigned_range.
  apply word.of_Z_unsigned.
Qed.

(** The bytes of a pointer are recovered from its value. *)
Lemma encode_decode_ptr (bs : list byte) :
  length bs = sizeof (width := width) Tptr ->
  encode_ptr (decode_ptr bs : word) = bs.
Proof.
  intros Hlen. unfold encode_ptr, decode_ptr.
  rewrite word.unsigned_of_Z. unfold word.wrap.
  replace (2 ^ width) with (2 ^ (Z.of_nat (sizeof (width := width) Tptr) * 8))
    by now rewrite sizeof_ptr_bits.
  rewrite to_bytes_mod, <- Hlen. apply to_of_bytes.
Qed.
End Pointers.

(** ** Runs of the machine *)

Section Runs.
Context {width : Z} {BW : Bitwidth width}.
Context {bo : ByteOrder}.
Context {word : word.word width} {word_ok : word.ok word}.
Context {mem : map.map word byte}.
Context {host : Type}.

Local Abbreviation state := (@state width word mem host).
Local Abbreviation vop_t := (@vop_t width word).
Local Abbreviation event := (@event width word).

Implicit Types (m : mem) (s : state) (a stats : word).

Lemma read_int_holds m a (v : Z) : holds_int m a v -> read_int m a = Some v.
Proof.
  intros [Hv Hb]. unfold read_int. rewrite Hb. cbn.
  now rewrite decode_encode_int.
Qed.

Lemma read_ptr_holds m a (p : word) :
  holds_ptr m a p -> read_ptr m a = Some p.
Proof.
  unfold holds_ptr, read_ptr. intros ->. cbn.
  now rewrite decode_encode_ptr.
Qed.

Lemma read_int_some m a (t := Tint) :
  load_bytes m a (sizeof (width := width) t) <> None ->
  exists z, read_int m a = Some z.
Proof.
  unfold read_int. subst t.
  destruct (load_bytes m a _); [eexists; reflexivity | congruence].
Qed.

Lemma read_ptr_some m a (t := Tptr) :
  load_bytes m a (sizeof (width := width) t) <> None ->
  exists p, read_ptr m a = Some p.
Proof.
  unfold read_ptr. subst t.
  destruct (load_bytes m a _); [eexists; reflexivity | congruence].
Qed.

(** One load, run on the machine. *)
Lemma load_int_run a s :
  load_int a s =
  match read_int (st_mem s) a with
  | Some z => Returned z (log (EvLoad a (sizeof (width := width) Tint)) s)
  | None => Undefined
  end.
Proof.
  unfold load_int, load, read_int. cbn [bind ret Monad_M].
  destruct (load_bytes (st_mem s) a _); reflexivity.
Qed.

Lemma load_ptr_run a s :
  load_ptr a s =
  match read_ptr (st_mem s) a with
  | Some p => Returned p (log (EvLoad a (sizeof (width := width) Tptr)) s)
  | None => Undefined
  end.
Proof.
  unfold load_ptr, load, read_ptr. cbn [bind ret Monad_M].
  destruct (load_bytes (st_mem s) a _); reflexivity.
Qed.

Lemma calls_loads (tr : list event) (l : list (word * nat)) :
  calls (tr ++ List.map (fun x => EvLoad (fst x) (snd x)) l) = calls tr.
Proof.
  unfold calls. rewrite flat_map_app.
  induction l as [| x l IH]; cbn; [apply app_nil_r | exact IH].
Qed.

Lemma loads_loads (tr : list event) (l : list (word * nat)) :
  loads (tr ++ List.map (fun x => EvLoad (fst x) (snd x)) l) = loads tr ++ l.
Proof.
  unfold loads. rewrite flat_map_app. f_equal.
  induction l as [| [a n] l IH]; cbn; [reflexivity | now rewrite IH].
Qed.

Section Layout.
Variable offsetof : member -> Z.

(** [vop_data] is [read_vop] plus the record of its five loads. *)
Lemma vop_data_run stats s :
  vop_data offsetof stats s =
  match read_vop offsetof (st_mem s) stats with
  | Some r =>
      Returned r
        (after_loads s (List.map (member_load offsetof stats) vop_members))
  | None => Undefined
  end.
Proof.
  unfold vop_data, read_vop. cbn [bind Monad_M].
  rewrite load_int_run.
  destruct (read_int _ (lval _ _ data_vop_general)); [| reflexivity].
  rewrite load_int_run. cbn [st_mem log].
  destruct (read_int _ (lval _ _ data_vop_time_base)); [| reflexivity].
  rewrite load_int_run. cbn [st_mem log].
  destruct (read_int _ (lval _ _ data_vop_time_increment)); [| reflexivity].
  rewrite load_ptr_run. cbn [st_mem log].
  destruct (read_ptr _ (lval _ _ data_vop_qscale)); [| reflexivity].
  rewrite load_int_run. cbn [st_mem log].
  destruct (read_int _ (lval _ _ data_vop_qscale_stride)); [| reflexivity].
  cbn [ret Monad_M]. unfold after_loads, log. cbn.
  now rewrite <- !app_assoc.
Qed.

(** [vol_data] is [read_vol] plus the record of its six loads. *)
Lemma vol_data_run stats s :
  vol_data offsetof stats s =
  match read_vol offsetof (st_mem s) stats with
  | Some r =>
      Returned r
        (after_loads s (List.map (member_load offsetof stats) vol_members))
  | None => Undefined
  end.
Proof.
  unfold vol_data, read_vol. cbn [bind Monad_M].
  rewrite load_int_run.
  destruct (read_int _ (lval _ _ data_vol_general)); [| reflexivity].
  rewrite load_int_run. cbn [st_mem log].
  destruct (read_int _ (lval _ _ data_vol_width)); [| reflexivity].
  rewrite load_int_run. cbn [st_mem log].
  destruct (read_int _ (lval _ _ data_vol_height)); [| reflexivity].
  rewrite load_int_run. cbn [st_mem log].
  destruct (read_int _ (lval _ _ data_vol_par)); [| reflexivity].
  rewrite load_int_run. cbn [st_mem log].
  destruct (read_int _ (lval _ _ data_vol_par_width)); [| reflexivity].
  rewrite load_int_run. cbn [st_mem log].
  destruct (read_int _ (lval _ _ data_vol_par_height)); [| reflexivity].
  cbn [ret Monad_M]. unfold after_loads, log. cbn.
  now rewrite <- !app_assoc.
Qed.
End Layout.
End Runs.

(** ** Blobs in memory *)

Lemma mod_eq_apart (a b M : Z) :
  a mod M = b mod M -> 0 < b - a < M -> False.
Proof.
  intros Heq Hd.
  assert (H0 : (b - a) mod M = 0)
    by (rewrite Zminus_mod, Heq, Z.sub_diag; apply Z.mod_0_l; lia).
  rewrite Z.mod_small in H0; lia.
Qed.

Lemma option_map_inj {A B : Type} (f : A -> B) (x y : option A) :
  (forall u v, f u = f v -> u = v) ->
  option_map f x = option_map f y -> x = y.
Proof.
  intros Hf. destruct x, y; cbn; intros H; try congruence.
  injection H as H. now rewrite (Hf _ _ H).
Qed.

Section Blobs.
Context {width : Z} {BW : Bitwidth width}.
Context {bo : ByteOrder}.
Context {word : word.word width} {word_ok : word.ok word}.
Context {mem : map.map word byte} {mem_ok : map.ok mem}.
Variable offsetof : member -> Z.

Local Abbreviation vop_t := (@vop_t width word).

Implicit Types (m : mem) (stats : word) (f : member).

Lemma read_vop_frame m stats (v : vop_t) :
  frame_blob offsetof m stats v -> read_vop offsetof m stats = Some v.
Proof.
  intros (Hg & Htb & Hti & Hq & Hqs). unfold read_vop.
  rewrite (read_int_holds _ _ _ Hg), (read_int_holds _ _ _ Htb),
    (read_int_holds _ _ _ Hti), (read_ptr_holds _ _ _ Hq),
    (read_int_holds _ _ _ Hqs).
  now destruct v.
Qed.

Lemma read_vol_stream m stats (v : vol_t) :
  stream_blob offsetof m stats v -> read_vol offsetof m stats = Some v.
Proof.
  intros (Hg & Hw & Hh & Hp & Hpw & Hph). unfold read_vol.
  rewrite (read_int_holds _ _ _ Hg), (read_int_holds _ _ _ Hw),
    (read_int_holds _ _ _ Hh), (read_int_holds _ _ _ Hp),
    (read_int_holds _ _ _ Hpw), (read_int_holds _ _ _ Hph).
  now destruct v.
Qed.

Lemma read_vop_readable m stats :
  readable offsetof m stats -> exists r, read_vop offsetof m stats = Some r.
Proof.
  intros Hr. unfold read_vop.
  destruct (read_int_some m _ (Hr data_vop_general)) as [g ->].
  destruct (read_int_some m _ (Hr data_vop_time_base)) as [tb ->].
  destruct (read_int_some m _ (Hr data_vop_time_increment)) as [ti ->].
  destruct (read_ptr_some m _ (Hr data_vop_qscale)) as [q ->].
  destruct (read_int_some m _ (Hr data_vop_qscale_stride)) as [qs ->].
  eexists; reflexivity.
Qed.

Lemma read_vol_readable m stats :
  readable offsetof m stats -> exists r, read_vol offsetof m stats = Some r.
Proof.
  intros Hr. unfold read_vol.
  destruct (read_int_some m _ (Hr data_vol_general)) as [g ->].
  destruct (read_int_some m _ (Hr data_vol_width)) as [w ->].
  destruct (read_int_some m _ (Hr data_vol_height)) as [h ->].
  destruct (read_int_some m _ (Hr data_vol_par)) as [p ->].
  destruct (read_int_some m _ (Hr data_vol_par_width)) as [pw ->].
  destruct (read_int_some m _ (Hr data_vol_par_height)) as [ph ->].
  eexists; reflexivity.
Qed.

(** Whatever bytes a member holds, they represent the value read from
    them: an [int] in range, or a pointer. *)
Lemma read_int_holds_inv m (a : word) (z : Z) :
  read_int m a = Some z -> holds_int m a z.
Proof.
  unfold read_int, holds_int.
  destruct (load_bytes m a _) as [bs |] eqn:E; cbn; [| discriminate].
  intros [= <-]. split; [apply decode_int_range |].
  now rewrite (encode_decode_int bs (length_load_bytes _ _ _ _ E)).
Qed.

Lemma read_ptr_holds_inv m (a : word) (p : word) :
  read_ptr m a = Some p -> holds_ptr m a p.
Proof.
  unfold read_ptr, holds_ptr.
  destruct (load_bytes m a _) as [bs |] eqn:E; cbn; [| discriminate].
  intros [= <-].
  now rewrite (encode_decode_ptr bs (length_load_bytes _ _ _ _ E)).
Qed.

(** The converse of [read_vop_frame]: a blob is a frame blob of what its
    frame arm reads as. *)
Lemma read_vop_blob m stats (r : vop_t) :
  read_vop offsetof m stats = Some r -> frame_blob offsetof m stats r.
Proof.
  unfold read_vop, frame_blob.
  destruct (read_int m (lval _ _ data_vop_general)) eqn:Hg; [| discriminate].
  destruct (read_int m (lval _ _ data_vop_time_base)) eqn:Htb;
    [| discriminate].
  destruct (read_int m (lval _ _ data_vop_time_increment)) eqn:Hti;
    [| discriminate].
  destruct (read_ptr m (lval _ _ data_vop_qscale)) eqn:Hq; [| discriminate].
  destruct (read_int m (lval _ _ data_vop_qscale_stride)) eqn:Hqs;
    [| discriminate].
  intros [= <-]. cbn.
  refine (conj _ (conj _ (conj _ (conj _ _))));
    first [now apply read_int_holds_inv | now apply read_ptr_holds_inv].
Qed.

Lemma read_vol_blob m stats (r : vol_t) :
  read_vol offsetof m stats = Some r -> stream_blob offsetof m stats r.
Proof.
  unfold read_vol, stream_blob.
  destruct (read_int m (lval _ _ data_vol_general)) eqn:Hg; [| discriminate].
  destruct (read_int m (lval _ _ data_vol_width)) eqn:Hw; [| discriminate].
  destruct (read_int m (lval _ _ data_vol_height)) eqn:Hh; [| discriminate].
  destruct (read_int m (lval _ _ data_vol_par)) eqn:Hp; [| discriminate].
  destruct (read_int m (lval _ _ data_vol_par_width)) eqn:Hpw;
    [| discriminate].
  destruct (read_int m (lval _ _ data_vol_par_height)) eqn:Hph;
    [| discriminate].
  intros [= <-]. cbn.
  refine (conj _ (conj _ (conj _ (conj _ (conj _ _)))));
    now apply read_int_holds_inv.
Qed.

Lemma load_bytes_agree m1 m2 (a : word) (n : nat) :
  agree_on m1 m2 a n -> load_bytes m1 a n = load_bytes m2 a n.
Proof.
  unfold agree_on, load_bytes. rewrite Forall_forall. intros H.
  f_equal. now apply map_ext_in.
Qed.

Lemma read_member_bytes m1 stats1 m2 stats2 f :
  load_bytes m1 (lval offsetof stats1 f)
             (sizeof (width := width) (member_type f)) =
  load_bytes m2 (lval offsetof stats2 f)
             (sizeof (width := width) (member_type f)) ->
  read_member offsetof m1 stats1 f = read_member offsetof m2 stats2 f.
Proof.
  unfold read_member, read_int, read_ptr.
  destruct (member_type f); intros ->; reflexivity.
Qed.

Lemma same_contents_members fs m1 stats1 m2 stats2 :
  same_contents offsetof m1 stats1 m2 stats2 ->
  same_members offsetof fs m1 stats1 m2 stats2.
Proof.
  intros H. apply Forall_forall. intros f _.
  apply read_member_bytes, H.
Qed.

Lemma agree_on_same_members fs stats m1 m2 :
  agree_on_members offsetof fs stats m1 m2 ->
  same_members offsetof fs m1 stats m2 stats.
Proof.
  unfold agree_on_members, same_members. rewrite !Forall_forall.
  intros H f Hf. apply read_member_bytes, load_bytes_agree, H, Hf.
Qed.

Lemma read_member_int m1 stats1 m2 stats2 f :
  member_type f = Tint ->
  read_member offsetof m1 stats1 f = read_member offsetof m2 stats2 f ->
  read_int m1 (lval offsetof stats1 f) = read_int m2 (lval offsetof stats2 f).
Proof.
  unfold read_member. intros ->. apply option_map_inj. congruence.
Qed.

Lemma read_member_ptr m1 stats1 m2 stats2 f :
  member_type f = Tptr ->
  read_member offsetof m1 stats1 f = read_member offsetof m2 stats2 f ->
  read_ptr m1 (lval offsetof stats1 f) = read_ptr m2 (lval offsetof stats2 f).
Proof.
  unfold read_member. intros ->. apply option_map_inj. congruence.
Qed.

(** The frame arm reads the same in two blobs whose five frame members
    are pairwise equal. *)
Lemma read_vop_same m1 stats1 m2 stats2 :
  same_members offsetof vop_members m1 stats1 m2 stats2 ->
  read_vop offsetof m1 stats1 = read_vop offsetof m2 stats2.
Proof.
  unfold same_members, vop_members. intros H.
  repeat match goal with
         | H : Forall _ (_ :: _) |- _ => inversion_clear H
         end.
  unfold read_vop.
  repeat match goal with
         | H : read_member _ _ _ data_vop_qscale = _ |- _ =>
             apply read_member_ptr in H; [rewrite H; clear H | reflexivity]
         | H : read_member _ _ _ _ = _ |- _ =>
             apply read_member_int in H; [rewrite H; clear H | reflexivity]
         end.
  reflexivity.
Qed.

(** The stream arm reads the same in two blobs whose six stream members
    are pairwise equal. *)
Lemma read_vol_same m1 stats1 m2 stats2 :
  same_members offsetof vol_members m1 stats1 m2 stats2 ->
  read_vol offsetof m1 stats1 = read_vol offsetof m2 stats2.
Proof.
  unfold same_members, vol_members. intros H.
  repeat match goal with
         | H : Forall _ (_ :: _) |- _ => inversion_clear H
         end.
  unfold read_vol.
  repeat match goal with
         | H : read_member _ _ _ _ = _ |- _ =>
             apply read_member_int in H; [rewrite H; clear H | reflexivity]
         end.
  reflexivity.
Qed.

(** A member that lies after the tag shares no byte with it. *)
Lemma tag_apart stats f m1 m2 :
  tag_before (width := width) offsetof f ->
  same_but_tag offsetof stats m1 m2 ->
  agree_on m1 m2 (lval offsetof stats f)
           (sizeof (width := width) (member_type f)).
Proof.
  intros (H0 & Hlo & Hhi) Hsame. apply Forall_forall. intros x Hx.
  apply Hsame. intros Htag. unfold footprint in Hx, Htag.
  apply in_map_iff in Hx as (i & <- & Hi%in_seq).
  apply in_map_iff in Htag as (j & Heq & Hj%in_seq).
  apply (f_equal word.unsigned) in Heq. unfold lval in Heq.
  rewrite !word.unsigned_add, !word.unsigned_of_Z in Heq.
  unfold word.wrap in Heq.
  repeat (rewrite Zplus_mod_idemp_l in Heq
          || rewrite Zplus_mod_idemp_r in Heq).
  change BinIntDef.Z.of_nat with Z.of_nat in Heq.
  rewrite !(Z.mod_small (offsetof _)) in Heq by lia.
  eapply mod_eq_apart; [exact Heq |].
  lia.
Qed.

(** Overwriting the tag touches the tag only. *)
Lemma retag_same_but_tag stats (bs : list byte) m :
  length bs = 4%nat -> same_but_tag offsetof stats m (retag offsetof stats bs m).
Proof.
  intros Hlen a Hnot. unfold retag. rewrite map.get_putmany_dec.
  destruct (map.get (map.of_list_word_at _ bs) a) eqn:E; [| reflexivity].
  exfalso. apply Hnot.
  assert (Hdom : map.get (map.of_list_word_at
                            (lval offsetof stats type_) bs) a <> None)
    by congruence.
  apply map.get_of_list_word_at_domain in Hdom. rewrite Hlen in Hdom.
  unfold footprint. apply in_map_iff.
  exists (Z.to_nat (word.unsigned (word.sub a (lval offsetof stats type_)))).
  split.
  - rewrite Z2Nat.id by lia. rewrite word.of_Z_unsigned.
    apply word.add_sub_r_same_r.
  - apply in_seq. lia.
Qed.
End Blobs.

(** * The bridge's contract *)

(** ** Constant bridge *)

(** C4.  Conversion to [unsigned int] gives a value between 0 and
    [UINT_MAX] with the 32-bit pattern of the native one, whatever that is;
    so each of [CPU_FORCE], [DEBUG_DEBUG] and [CSP_VFLIP] is a value of
    [unsigned int] with the bits of its native literal.  That literal,
    [1<<31], is [INT_MIN] as an [int]; the bridged constant reads as the
    positive number 2147483648, whose only set bit is bit 31. *)
Theorem bridged_constants_bit_identical :
  (forall native : Z, bridges (wrap_uint native) native) /\
  bridges CPU_FORCE XVID_CPU_FORCE /\
  bridges DEBUG_DEBUG XVID_DEBUG_DEBUG /\
  bridges CSP_VFLIP XVID_CSP_VFLIP /\
  XVID_CPU_FORCE = INT_MIN /\
  XVID_DEBUG_DEBUG = INT_MIN /\
  XVID_CSP_VFLIP = INT_MIN /\
  CPU_FORCE = 2147483648 /\
  DEBUG_DEBUG = 2147483648 /\
  CSP_VFLIP = 2147483648 /\
  (forall i : Z, Z.testbit CPU_FORCE i = (i =? 31)) /\
  (forall i : Z, Z.testbit DEBUG_DEBUG i = (i =? 31)) /\
  (forall i : Z, Z.testbit CSP_VFLIP i = (i =? 31)).
Proof.
  assert (Hbit : forall i : Z, Z.testbit 2147483648 i = (i =? 31)).
  { intros i. change 2147483648 with (2 ^ 31).
    rewrite Z.pow2_bits_eqb by lia. apply Z.eqb_sym. }
  split; [exact wrap_uint_bridges |].
  repeat (split; [apply wrap_uint_bridges |]).
  repeat (split; [reflexivity |]).
  repeat split; exact Hbit.
Qed.

(** ** Stats extractor *)

Section Extraction.
Context {width : Z} {BW : Bitwidth width}.
Context {bo : ByteOrder}.
Context {word : word.word width} {word_ok : word.ok word}.
Context {mem : map.map word byte}.
Context {host : Type}.
Variable offsetof : member -> Z.

Local Abbreviation state := (@state width word mem host).
Local Abbreviation vop_t := (@vop_t width word).

Implicit Types (s : state) (stats : word).

(** C1.  On a valid frame blob [vop_data] returns a record whose
    [general], [time_base], [time_increment] and [qscale_stride] are the
    values held by the blob's frame arm, and whose [qscale] is the very
    pointer held there: it refers to the same sequence of quantizers, of
    any length, as the blob's own pointer.  Nothing else is changed: the
    record is the frame arm, and the blob represents it bit for bit. *)
Theorem vop_data_extracts_frame s stats (v : vop_t) :
  frame_blob offsetof (st_mem s) stats v ->
  exists (r : vop_t) (s' : state),
    vop_data offsetof stats s = Returned r s' /\
    vop_general r = vop_general v /\
    vop_time_base r = vop_time_base v /\
    vop_time_increment r = vop_time_increment v /\
    vop_qscale_stride r = vop_qscale_stride v /\
    vop_qscale r = vop_qscale v /\
    (forall n : nat,
       load_ints (st_mem s') (vop_qscale r) n =
       load_ints (st_mem s) (vop_qscale v) n) /\
    r = v /\
    frame_blob offsetof (st_mem s') stats r.
Proof.
  intros Hb. rewrite vop_data_run, (read_vop_frame _ _ _ _ Hb).
  eexists _, _. split; [reflexivity |]. cbn. intuition.
Qed.

(** C2.  On a valid stream blob [vol_data] returns a record whose six
    members are the values held by the blob's stream arm.  The record is
    made of six integers in the range of [int] and of nothing else: it
    holds no pointer into the blob. *)
Theorem vol_data_extracts_stream s stats (v : vol_t) :
  stream_blob offsetof (st_mem s) stats v ->
  exists (r : vol_t) (s' : state),
    vol_data offsetof stats s = Returned r s' /\
    vol_general r = vol_general v /\
    vol_width r = vol_width v /\
    vol_height r = vol_height v /\
    vol_par r = vol_par v /\
    vol_par_width r = vol_par_width v /\
    vol_par_height r = vol_par_height v /\
    (exists g w h p pw ph : Z,
       r = {| vol_general := g; vol_width := w; vol_height := h;
              vol_par := p; vol_par_width := pw; vol_par_height := ph |} /\
       Forall int_range [g; w; h; p; pw; ph]).
Proof.
  intros Hb. rewrite vol_data_run, (read_vol_stream _ _ _ _ Hb).
  eexists _, _. split; [reflexivity |].
  repeat (split; [reflexivity |]).
  destruct v as [g w h p pw ph], Hb as (Hg & Hw & Hh & Hp & Hpw & Hph).
  exists g, w, h, p, pw, ph. split; [reflexivity |].
  cbn in Hg, Hw, Hh, Hp, Hpw, Hph.
  repeat (apply Forall_cons; [eapply proj1; eassumption |]).
  apply Forall_nil.
Qed.
End Extraction.

(** The sample blobs are what they are meant to be. *)

Ltac blob_facts :=
  unfold frame_blob, stream_blob, holds_int, holds_ptr, int_range,
    INT_MIN, INT_MAX;
  cbn [vop_general vop_time_base vop_time_increment vop_qscale
       vop_qscale_stride vol_general vol_width vol_height vol_par
       vol_par_width vol_par_height LP64.frame LP64.frame_noq LP64.stream];
  repeat split; try lia; vm_compute; reflexivity.

Lemma lp64_frame_blob :
  frame_blob LP64.offsetof (st_mem (LP64.init LP64.frame_mem))
    LP64.stats LP64.frame.
Proof. blob_facts. Defined.

Lemma lp64_frame_noq_blob :
  frame_blob LP64.offsetof (st_mem (LP64.init LP64.frame_noq_mem))
    LP64.stats LP64.frame_noq.
Proof. blob_facts. Defined.

Lemma lp64_stream_blob :
  stream_blob LP64.offsetof (st_mem (LP64.init LP64.stream_mem))
    LP64.stats LP64.stream.
Proof. blob_facts. Defined.

(** The spec's scenario: a frame blob with [general = 3], [time_base = 25],
    [time_increment = 1], [qscale_stride = 11] and 22 quantizers. *)
Lemma vop_data_extracts_frame_witness :
  frame_blob LP64.offsetof (st_mem (LP64.init LP64.frame_mem))
    LP64.stats LP64.frame /\
  exists r s',
    vop_data LP64.offsetof LP64.stats (LP64.init LP64.frame_mem)
      = Returned r s' /\
    r = LP64.frame /\
    load_ints (st_mem s') (vop_qscale r) 22 = Some LP64.quantizers.
Proof.
  split; [exact lp64_frame_blob |].
  destruct (vop_data_extracts_frame LP64.offsetof
              (LP64.init LP64.frame_mem) LP64.stats LP64.frame
              lp64_frame_blob)
    as (r & s' & Hrun & _ & _ & _ & _ & _ & Hq & Hr & _).
  exists r, s'. split; [exact Hrun |]. split; [exact Hr |].
  rewrite Hq. vm_compute. reflexivity.
Defined.

Lemma vol_data_extracts_stream_witness :
  stream_blob LP64.offsetof (st_mem (LP64.init LP64.stream_mem))
    LP64.stats LP64.stream /\
  exists r s',
    vol_data LP64.offsetof LP64.stats (LP64.init LP64.stream_mem)
      = Returned r s' /\
    (vol_width r, vol_height r) = (640, 480).
Proof.
  split; [exact lp64_stream_blob |].
  destruct (vol_data_extracts_stream LP64.offsetof
              (LP64.init LP64.stream_mem) LP64.stats
              LP64.stream lp64_stream_blob)
    as (r & s' & Hrun & _ & Hw & Hh & _).
  exists r, s'. split; [exact Hrun |]. now rewrite Hw, Hh.
Defined.

Section Trust.
Context {width : Z} {BW : Bitwidth width}.
Context {bo : ByteOrder}.
Context {word : word.word width} {word_ok : word.ok word}.
Context {mem : map.map word byte}.
Context {host : Type}.
Variable offsetof : member -> Z.

Local Abbreviation state := (@state width word mem host).
Local Abbreviation vop_t := (@vop_t width word).

Implicit Types (s : state) (stats : word).

(** C5.  On every readable blob both extractors return a record: they
    have no error result, and whatever bytes the blob holds (a frame, a
    stream or what is left of either) are read through the arm the caller
    chose, so that the record is the value those bytes represent there.
    The tag takes no part: overwriting it changes the result of neither
    extractor. *)
Theorem extractors_check_no_tag s stats :
  readable offsetof (st_mem s) stats ->
  (forall f : member,
     In f (vop_members ++ vol_members) ->
     tag_before (width := width) offsetof f) ->
  (exists (r : vop_t) (s' : state),
     vop_data offsetof stats s = Returned r s' /\
     frame_blob offsetof (st_mem s) stats r) /\
  (exists (r : vol_t) (s' : state),
     vol_data offsetof stats s = Returned r s' /\
     stream_blob offsetof (st_mem s) stats r) /\
  (forall s2 : state,
     same_but_tag offsetof stats (st_mem s) (st_mem s2) ->
     result (vop_data offsetof stats s2) = result (vop_data offsetof stats s)
     /\
     result (vol_data offsetof stats s2) = result (vol_data offsetof stats s)).
Proof.
  intros Hr Htag. split; [| split].
  - rewrite vop_data_run.
    destruct (read_vop_readable offsetof _ _ Hr) as [r Hread].
    rewrite Hread. eauto using read_vop_blob.
  - rewrite vol_data_run.
    destruct (read_vol_readable offsetof _ _ Hr) as [r Hread].
    rewrite Hread. eauto using read_vol_blob.
  - intros s2 Hsame. rewrite !vop_data_run, !vol_data_run.
    assert (Hm : forall fs : list member,
               incl fs (vop_members ++ vol_members) ->
               same_members offsetof fs (st_mem s) stats (st_mem s2) stats).
    { intros fs Hfs. apply agree_on_same_members, Forall_forall.
      intros f Hf. apply tag_apart; [apply Htag, Hfs, Hf | exact Hsame]. }
    rewrite (read_vop_same offsetof _ _ _ _
               (Hm vop_members (incl_appl _ (incl_refl _)))).
    rewrite (read_vol_same offsetof _ _ _ _
               (Hm vol_members (incl_appr _ (incl_refl _)))).
    split; [destruct (read_vop _ _ _) | destruct (read_vol _ _ _)];
      reflexivity.
Qed.

(** C7.  Extraction only reads.  On a readable blob each extractor returns
    and leaves the whole memory (the blob, its union and the quantizers
    behind [qscale] included) and the host as they were, and calls nothing.
    Two blobs with equal contents, wherever they lie, give equal
    records. *)
Theorem extractors_are_read_only s stats :
  readable offsetof (st_mem s) stats ->
  (exists (r : vop_t) (s' : state),
     vop_data offsetof stats s = Returned r s' /\
     st_mem s' = st_mem s /\ st_host s' = st_host s /\
     calls (st_trace s') = calls (st_trace s) /\
     forall n : nat,
       load_ints (st_mem s') (vop_qscale r) n =
       load_ints (st_mem s) (vop_qscale r) n) /\
  (exists (r : vol_t) (s' : state),
     vol_data offsetof stats s = Returned r s' /\
     st_mem s' = st_mem s /\ st_host s' = st_host s /\
     calls (st_trace s') = calls (st_trace s)) /\
  (forall (s2 : state) (stats2 : word),
     same_contents offsetof (st_mem s) stats (st_mem s2) stats2 ->
     result (vop_data offsetof stats2 s2) = result (vop_data offsetof stats s)
     /\
     result (vol_data offsetof stats2 s2) = result (vol_data offsetof stats s)).
Proof.
  intros Hr. split; [| split].
  - rewrite vop_data_run.
    destruct (read_vop_readable offsetof _ _ Hr) as [r ->].
    eexists _, _. split; [reflexivity |].
    cbn [st_mem st_host st_trace after_loads].
    rewrite calls_loads. auto.
  - rewrite vol_data_run.
    destruct (read_vol_readable offsetof _ _ Hr) as [r ->].
    eexists _, _. split; [reflexivity |].
    cbn [st_mem st_host st_trace after_loads].
    rewrite calls_loads. auto.
  - intros s2 stats2 Hsame. rewrite !vop_data_run, !vol_data_run.
    rewrite (read_vop_same offsetof _ _ _ _
               (same_contents_members offsetof vop_members _ _ _ _ Hsame)).
    rewrite (read_vol_same offsetof _ _ _ _
               (same_contents_members offsetof vol_members _ _ _ _ Hsame)).
    split; [destruct (read_vop _ _ _) | destruct (read_vol _ _ _)];
      reflexivity.
Qed.

(** C9.  The result of [vol_data] is a function of the six stream members
    alone, and the result of [vop_data] of the five frame members alone:
    two blobs that agree on them give the same result, whatever their
    tags and their other bytes. *)
Theorem extraction_depends_on_own_arm_only s1 stats1 s2 stats2 :
  (same_members offsetof vol_members (st_mem s1) stats1 (st_mem s2) stats2 ->
   result (vol_data offsetof stats1 s1) = result (vol_data offsetof stats2 s2))
  /\
  (same_members offsetof vop_members (st_mem s1) stats1 (st_mem s2) stats2 ->
   result (vop_data offsetof stats1 s1) = result (vop_data offsetof stats2 s2)).
Proof.
  split; intros Hsame.
  - rewrite !vol_data_run, (read_vol_same offsetof _ _ _ _ Hsame).
    destruct (read_vol _ _ _); reflexivity.
  - rewrite !vop_data_run, (read_vop_same offsetof _ _ _ _ Hsame).
    destruct (read_vop _ _ _); reflexivity.
Qed.

(** C10.  [vop_data] copies [qscale] as a value.  Its loads are the five
    members of the frame arm and nothing else, so no quantizer is read;
    its result is the same in every memory that agrees on those five
    members, whether or not anything is mapped where [qscale] points.
    No condition is put on [qscale]: a null pointer is extracted like any
    other. *)
Theorem vop_data_never_follows_qscale s stats (v : vop_t) :
  frame_blob offsetof (st_mem s) stats v ->
  exists s' : state,
    vop_data offsetof stats s = Returned v s' /\
    loads (st_trace s') =
      loads (st_trace s) ++ List.map (member_load offsetof stats) vop_members
    /\
    (forall s2 : state,
       agree_on_members offsetof vop_members stats (st_mem s) (st_mem s2) ->
       result (vop_data offsetof stats s2) = Some v).
Proof.
  intros Hb. rewrite vop_data_run, (read_vop_frame _ _ _ _ Hb).
  eexists. split; [reflexivity |]. split.
  - cbn [st_trace after_loads]. apply loads_loads.
  - intros s2 Hagree. rewrite vop_data_run.
    rewrite <- (read_vop_same offsetof _ _ _ _
                  (agree_on_same_members offsetof _ _ _ _ Hagree)).
    now rewrite (read_vop_frame _ _ _ _ Hb).
Qed.
End Trust.

(** Facts about the LP64 target and the sample memories. *)

Lemma lp64_tag_before (f : member) :
  In f (vop_members ++ vol_members) -> tag_before (width := 64) LP64.offsetof f.
Proof.
  intros Hin. unfold tag_before.
  destruct f; [exfalso; cbn in Hin; intuition discriminate | ..];
    repeat split; vm_compute; discriminate.
Defined.

Lemma lp64_frame_readable :
  readable LP64.offsetof (st_mem (LP64.init LP64.frame_mem)) LP64.stats.
Proof. intros f. destruct f; vm_compute; discriminate. Defined.

Lemma lp64_stream_readable :
  readable LP64.offsetof (st_mem (LP64.init LP64.stream_mem)) LP64.stats.
Proof. intros f. destruct f; vm_compute; discriminate. Defined.

Lemma lp64_streams_same_vol :
  same_members LP64.offsetof vol_members
    (st_mem (LP64.init LP64.stream_mem)) LP64.stats
    (st_mem (LP64.init LP64.stream_mem')) LP64.stats.
Proof.
  unfold same_members, vol_members.
  repeat (apply Forall_cons; [vm_compute; reflexivity |]). apply Forall_nil.
Defined.

Lemma lp64_frames_same_vop :
  same_members LP64.offsetof vop_members
    (st_mem (LP64.init LP64.frame_mem)) LP64.stats
    (st_mem (LP64.init LP64.frame_mem')) LP64.stats.
Proof.
  unfold same_members, vop_members.
  repeat (apply Forall_cons; [vm_compute; reflexivity |]). apply Forall_nil.
Defined.

Lemma lp64_same_contents :
  same_contents LP64.offsetof
    (st_mem (LP64.init LP64.frame_mem)) LP64.stats
    (st_mem (LP64.init LP64.frame_mem2)) LP64.stats2.
Proof. intros f. destruct f; vm_compute; reflexivity. Defined.

(** A blob that holds a stream is read through the frame arm all the same:
    [time_base] and [time_increment] come out as the picture's width and
    height, [qscale] as a pointer made of the two pixel-aspect integers, and
    [qscale_stride] as the bytes an earlier frame left behind.  Overwriting
    the tag changes nothing. *)
Lemma extractors_check_no_tag_witness :
  stream_blob LP64.offsetof (st_mem (LP64.init LP64.stream_mem))
    LP64.stats LP64.stream /\
  (exists r s',
     vop_data LP64.offsetof LP64.stats (LP64.init LP64.stream_mem)
       = Returned r s' /\
     vop_values r = (0, 640, 480, 16 + 11 * 2 ^ 32, 11)) /\
  forall s2 : @state 64 LP64.word LP64.mem LP64.host,
    st_mem s2 = retag LP64.offsetof LP64.stats (encode_int 9)
                  (st_mem (LP64.init LP64.stream_mem)) ->
    result (vop_data LP64.offsetof LP64.stats s2)
    = result (vop_data LP64.offsetof LP64.stats (LP64.init LP64.stream_mem)).
Proof.
  split; [exact lp64_stream_blob |].
  destruct (extractors_check_no_tag LP64.offsetof
              (LP64.init LP64.stream_mem) LP64.stats
              lp64_stream_readable lp64_tag_before)
    as ((r & s' & Hrun & _) & _ & Htag).
  split.
  - exists r, s'. split; [exact Hrun |].
    assert (Hres : option_map vop_values
                     (result (vop_data LP64.offsetof LP64.stats
                                (LP64.init LP64.stream_mem)))
                   = Some (0, 640, 480, 16 + 11 * 2 ^ 32, 11))
      by (vm_compute; reflexivity).
    rewrite Hrun in Hres. cbn [result option_map] in Hres.
    exact (f_equal (fun o => match o with Some x => x | None => vop_values r end)
             Hres).
  - intros s2 Hs2. apply Htag. rewrite Hs2.
    apply (retag_same_but_tag (word_ok := Naive.word64_ok)
             (mem_ok := SortedListWord.ok Naive.word64 byte)).
    reflexivity.
Defined.

(** The sample frame blob is left as it was, and a copy of it at another
    address gives the same record. *)
Lemma extractors_are_read_only_witness :
  readable LP64.offsetof (st_mem (LP64.init LP64.frame_mem)) LP64.stats /\
  (exists r s',
     vop_data LP64.offsetof LP64.stats (LP64.init LP64.frame_mem)
       = Returned r s' /\
     st_mem s' = st_mem (LP64.init LP64.frame_mem)) /\
  result (vop_data LP64.offsetof LP64.stats2 (LP64.init LP64.frame_mem2))
  = result (vop_data LP64.offsetof LP64.stats (LP64.init LP64.frame_mem)).
Proof.
  split; [exact lp64_frame_readable |].
  destruct (extractors_are_read_only LP64.offsetof
              (LP64.init LP64.frame_mem) LP64.stats lp64_frame_readable)
    as ((r & s' & Hrun & Hmem & _) & _ & Hcopy).
  split.
  - exists r, s'. split; [exact Hrun | exact Hmem].
  - exact (proj1 (Hcopy (LP64.init LP64.frame_mem2) LP64.stats2
                    lp64_same_contents)).
Defined.

(** Two stream blobs under different tags and with different bytes behind
    the stream arm give the same stream record (and different frame
    records); two frame blobs under different tags and with different bytes
    in the hole give the same frame record (and different stream
    records). *)
Lemma extraction_depends_on_own_arm_only_witness :
  (result (vol_data LP64.offsetof LP64.stats (LP64.init LP64.stream_mem))
   = result (vol_data LP64.offsetof LP64.stats (LP64.init LP64.stream_mem'))
   /\
   result (vop_data LP64.offsetof LP64.stats (LP64.init LP64.stream_mem))
   <> result (vop_data LP64.offsetof LP64.stats (LP64.init LP64.stream_mem')))
  /\
  (result (vop_data LP64.offsetof LP64.stats (LP64.init LP64.frame_mem))
   = result (vop_data LP64.offsetof LP64.stats (LP64.init LP64.frame_mem'))
   /\
   result (vol_data LP64.offsetof LP64.stats (LP64.init LP64.frame_mem))
   <> result (vol_data LP64.offsetof LP64.stats (LP64.init LP64.frame_mem'))).
Proof.
  split; split.
  - exact (proj1 (extraction_depends_on_own_arm_only LP64.offsetof
                    (LP64.init LP64.stream_mem) LP64.stats
                    (LP64.init LP64.stream_mem') LP64.stats)
             lp64_streams_same_vol).
  - intros Heq. apply (f_equal (option_map vop_values)) in Heq.
    vm_compute in Heq. discriminate Heq.
  - exact (proj2 (extraction_depends_on_own_arm_only LP64.offsetof
                    (LP64.init LP64.frame_mem) LP64.stats
                    (LP64.init LP64.frame_mem') LP64.stats)
             lp64_frames_same_vop).
  - intros Heq. apply (f_equal (option_map vol_par)) in Heq.
    vm_compute in Heq. discriminate Heq.
Defined.

(** A frame without quantizer table: [qscale] is null and nothing is mapped
    at address 0, so reading a quantizer would be undefined; [vop_data]
    returns the frame as it is. *)
Lemma vop_data_never_follows_qscale_witness :
  frame_blob LP64.offsetof (st_mem (LP64.init LP64.frame_noq_mem))
    LP64.stats LP64.frame_noq /\
  word.unsigned (vop_qscale LP64.frame_noq) = 0 /\
  map.get LP64.frame_noq_mem NULL = None /\
  load_ints LP64.frame_noq_mem (vop_qscale LP64.frame_noq) 1 = None /\
  exists s',
    vop_data LP64.offsetof LP64.stats (LP64.init LP64.frame_noq_mem)
      = Returned LP64.frame_noq s' /\
    loads (st_trace s') =
      loads (st_trace (LP64.init LP64.frame_noq_mem)) ++
      List.map (member_load LP64.offsetof LP64.stats) vop_members.
Proof.
  split; [exact lp64_frame_noq_blob |].
  do 3 (split; [vm_compute; reflexivity |]).
  destruct (vop_data_never_follows_qscale LP64.offsetof
              (LP64.init LP64.frame_noq_mem) LP64.stats LP64.frame_noq
              lp64_frame_noq_blob)
    as (s' & Hrun & Hloads & _).
  exists s'. split; [exact Hrun | exact Hloads].
Defined.

(** ** Callback trampoline *)

Section Trampoline.
Context {width : Z} {word : word.word width} {mem : map.map word byte}.
Context {host : Type}.
Variable pluginCallback : @handler width word mem host.

Local Abbreviation state := (@state width word mem host).

Implicit Types (s : state) (handle : word) (opt : Z).

(** The trampoline, run on the machine: one call of the handler is
    recorded, and the handler's answer decides the outcome. *)
Lemma pluginCallback_cgo_run handle opt (param1 param2 : word) s :
  pluginCallback_cgo pluginCallback handle opt param1 param2 s =
  let tr := st_trace s ++ [EvCall handle opt param1 param2] in
  match pluginCallback handle opt param1 param2 (st_mem s) (st_host s) with
  | HReturn v m h =>
      Returned v {| st_mem := m; st_host := h; st_trace := tr |}
  | HAbort => Aborted tr
  end.
Proof.
  unfold pluginCallback_cgo, call_extern. cbn [bind ret Monad_M].
  destruct (pluginCallback _ _ _ _ _ _); reflexivity.
Qed.

Lemma calls_snoc_call (tr : list (@event width word))
    handle opt (param1 param2 : word) :
  calls (tr ++ [EvCall handle opt param1 param2]) =
  calls tr ++ [(handle, opt, param1, param2)].
Proof. unfold calls. now rewrite flat_map_app. Qed.

Lemma loads_snoc_call (tr : list (@event width word))
    handle opt (param1 param2 : word) :
  loads (tr ++ [EvCall handle opt param1 param2]) = loads tr.
Proof. unfold loads. rewrite flat_map_app. apply app_nil_r. Qed.

(** C3.  One call of the trampoline calls the handler exactly once, with
    the four arguments as they came and in their order; if the handler
    returns [v], the trampoline returns [v], and memory and host are as
    that one invocation left them. *)
Theorem trampoline_passes_through handle opt (param1 param2 : word) s :
  let o := pluginCallback_cgo pluginCallback handle opt param1 param2 s in
  let h := pluginCallback handle opt param1 param2 (st_mem s) (st_host s) in
  result o = handler_value h /\
  calls (trace_of o) = calls (st_trace s) ++ [(handle, opt, param1, param2)]
  /\
  length (calls (trace_of o)) = S (length (calls (st_trace s))) /\
  (forall (v : Z) (m' : mem) (h' : host),
     h = HReturn v m' h' ->
     exists s' : state,
       o = Returned v s' /\ st_mem s' = m' /\ st_host s' = h').
Proof.
  cbv zeta. rewrite pluginCallback_cgo_run. cbv zeta.
  destruct (pluginCallback _ _ _ _ _ _) as [v m h |];
    cbn [result handler_value trace_of st_trace];
    rewrite calls_snoc_call, length_app, Nat.add_comm;
    repeat split; try discriminate.
  intros v' m' h' [= <- <- <-]. eauto.
Qed.

(** The spec's bridge would be loud on an empty slot, whatever the
    sentinel: its trampoline is there without a handler and aborts. *)
Lemma slot_bridge_loud_without_handler (sentinel : Z -> bool) :
  loud_without_handler sentinel
    (slot_bridge : @bridge width word mem host).
Proof.
  eexists. split; [reflexivity |].
  intros handle opt param1 param2 s. exact I.
Qed.

(** With a handler in its slot the spec's bridge gives the trampoline of
    [goxvid.c]; the two differ on the empty slot only. *)
Lemma slot_bridge_registered handle opt (param1 param2 : word) :
  exists t,
    slot_bridge (Some pluginCallback) = Some t /\
    t handle opt param1 param2 =
    pluginCallback_cgo pluginCallback handle opt param1 param2.
Proof. eexists. split; reflexivity. Qed.


(** C8.  The trampoline hands [param1] and [param2] on as values and reads
    no memory itself.  Its result is what the handler answers to the four
    arguments as they came, and memory and host are as the handler left
    them; it records no load and never performs an invalid access; and
    with both parameters null its result is the handler's at null. *)
Theorem trampoline_never_dereferences handle opt (param1 param2 : word) s :
  let o := pluginCallback_cgo pluginCallback handle opt param1 param2 s in
  let h := pluginCallback handle opt param1 param2 (st_mem s) (st_host s) in
  result o = handler_value h /\
  (forall (v : Z) (m' : mem) (h' : host),
     h = HReturn v m' h' ->
     exists s' : state,
       o = Returned v s' /\ st_mem s' = m' /\ st_host s' = h') /\
  (o = Aborted (trace_of o) <-> h = HAbort) /\
  loads (trace_of o) = loads (st_trace s) /\
  calls (trace_of o) = calls (st_trace s) ++ [(handle, opt, param1, param2)]
  /\
  o <> Undefined /\
  result (pluginCallback_cgo pluginCallback handle opt NULL NULL s) =
  handler_value (pluginCallback handle opt NULL NULL (st_mem s) (st_host s)).
Proof.
  cbv zeta. rewrite !pluginCallback_cgo_run. cbv zeta.
  refine (conj _ (conj _ (conj _ (conj _ (conj _ (conj _ _)))))).
  - destruct (pluginCallback handle opt param1 param2 _ _); reflexivity.
  - intros v m' h' Hh. rewrite Hh. eauto.
  - destruct (pluginCallback handle opt param1 param2 _ _);
      cbn [trace_of]; split; intros; try discriminate; reflexivity.
  - destruct (pluginCallback handle opt param1 param2 _ _);
      cbn [trace_of st_trace]; apply loads_snoc_call.
  - destruct (pluginCallback handle opt param1 param2 _ _);
      cbn [trace_of st_trace]; apply calls_snoc_call.
  - destruct (pluginCallback handle opt param1 param2 _ _); discriminate.
  - destruct (pluginCallback handle opt NULL NULL _ _); reflexivity.
Qed.
End Trampoline.

(** The spec's scenario: the handler [H(h, o, p1, p2) = 42] is installed
    and the trampoline is called with [(0x1, 7, null, null)].  It returns 42,
    one call is recorded, and the handler's journal holds that one event. *)
Lemma trampoline_passes_through_witness :
  exists s',
    pluginCallback_cgo LP64.H42 (LP64.ptr 1) 7 NULL NULL LP64.idle
      = Returned 42 s' /\
    st_host s' = [(LP64.ptr 1, 7, NULL, NULL)] /\
    calls (st_trace s') = [(LP64.ptr 1, 7, NULL, NULL)].
Proof.
  destruct (trampoline_passes_through LP64.H42 (LP64.ptr 1) 7 NULL NULL
              LP64.idle)
    as (_ & Hcalls & _ & Hret).
  destruct (Hret 42 (st_mem LP64.idle)
              (st_host LP64.idle ++ [(LP64.ptr 1, 7, NULL, NULL)]) eq_refl)
    as (s' & Hrun & _ & Hhost).
  exists s'. split; [exact Hrun |]. split; [exact Hhost |].
  rewrite Hrun in Hcalls. exact Hcalls.
Defined.



(** A handler that answers with its parameters, over an empty memory where
    every access would be invalid: called with [(0x1000, 0x8)] the
    trampoline returns 4104, called with null parameters it returns 0, and
    it loads nothing. *)
Lemma trampoline_never_dereferences_witness :
  map.get (st_mem LP64.idle) LP64.stats = None /\
  map.get (st_mem LP64.idle) NULL = None /\
  result (pluginCallback_cgo LP64.Hparams (LP64.ptr 1) 7 LP64.stats
            (LP64.ptr 8) LP64.idle) = Some 4104 /\
  result (pluginCallback_cgo LP64.Hparams (LP64.ptr 1) 7 NULL NULL
            LP64.idle) = Some 0 /\
  loads (trace_of (pluginCallback_cgo LP64.Hparams (LP64.ptr 1) 7 LP64.stats
                     (LP64.ptr 8) LP64.idle)) = [].
Proof.
  split; [reflexivity |]. split; [reflexivity |].
  destruct (trampoline_never_dereferences LP64.Hparams (LP64.ptr 1) 7
              LP64.stats (LP64.ptr 8) LP64.idle)
    as (Hres & _ & _ & Hloads & _ & _ & _).
  destruct (trampoline_never_dereferences LP64.Hparams (LP64.ptr 1) 7
              NULL NULL LP64.idle)
    as (_ & _ & _ & _ & _ & _ & Hnull).
  split; [exact Hres |]. split; [exact Hnull | exact Hloads].
Defined.

(** ** The second target

    On a big-endian target with four-byte pointers the extractors behave
    alike; a stream read through the frame arm now yields [par] as [qscale]
    and [par_width] as [qscale_stride]. *)
Lemma ilp32be_stream_blob :
  stream_blob (bo := ILP32BE.order) ILP32BE.offsetof
    (st_mem (ILP32BE.init ILP32BE.stream_mem)) ILP32BE.stats LP64.stream.
Proof. blob_facts. Qed.

Lemma ilp32be_stream_through_frame_arm :
  option_map vop_values
    (result (vop_data (bo := ILP32BE.order) ILP32BE.offsetof ILP32BE.stats
               (ILP32BE.init ILP32BE.stream_mem)))
  = Some (0, 640, 480, 15, 16).
Proof. vm_compute. reflexivity. Qed.

Lemma ilp32be_stream_readable :
  readable ILP32BE.offsetof
    (st_mem (ILP32BE.init ILP32BE.stream_mem)) ILP32BE.stats.
Proof. intros f. destruct f; vm_compute; discriminate. Qed.

(** The record read through the frame arm is represented by the very bytes
    of the stream. *)
Lemma ilp32be_frame_arm_represented :
  exists r,
    read_vop (bo := ILP32BE.order) ILP32BE.offsetof
      (st_mem (ILP32BE.init ILP32BE.stream_mem)) ILP32BE.stats = Some r /\
    frame_blob (bo := ILP32BE.order) ILP32BE.offsetof
      (st_mem (ILP32BE.init ILP32BE.stream_mem)) ILP32BE.stats r /\
    vop_qscale r = word.of_Z (vol_par LP64.stream).
Proof.
  destruct (read_vop_readable (bo := ILP32BE.order) ILP32BE.offsetof _ _
              ilp32be_stream_readable) as [r Hread].
  exists r. split; [exact Hread |]. split.
  - apply (read_vop_blob (BW := BW32) (word_ok := Naive.word32_ok)).
    exact Hread.
  - assert (Hq : option_map (fun r => word.unsigned (vop_qscale r))
                   (read_vop (bo := ILP32BE.order) ILP32BE.offsetof
                      (st_mem (ILP32BE.init ILP32BE.stream_mem))
                      ILP32BE.stats) = Some 15)
      by (vm_compute; reflexivity).
    rewrite Hread in Hq. cbn [option_map] in Hq.
    apply (word.unsigned_inj (word_ok := Naive.word32_ok)).
    injection Hq as Hq. etransitivity; [exact Hq | reflexivity].
Qed.

Lemma ilp32be_stream_through_stream_arm :
  vol_data (bo := ILP32BE.order) ILP32BE.offsetof ILP32BE.stats
    (ILP32BE.init ILP32BE.stream_mem)
  = Returned LP64.stream
      (after_loads (ILP32BE.init ILP32BE.stream_mem)
         (List.map (member_load ILP32BE.offsetof ILP32BE.stats) vol_members)).
Proof.
  rewrite (vol_data_run (bo := ILP32BE.order)).
  now rewrite (read_vol_stream (bo := ILP32BE.order) _ _ _ _
                 ilp32be_stream_blob).
Qed.

(** * Using the bridge *)

(** ** What an extractor needs and what it touches *)

Section Reach.
Context {width : Z} {BW : Bitwidth width}.
Context {bo : ByteOrder}.
Context {word : word.word width} {word_ok : word.ok word}.
Context {mem : map.map word byte}.
Context {host : Type}.
Variable offsetof : member -> Z.

Local Abbreviation state := (@state width word mem host).
Local Abbreviation vop_t := (@vop_t width word).

Implicit Types (m : mem) (s : state) (stats : word).

(** The frame arm reads as a record exactly when its five members are
    mapped. *)
Lemma read_vop_cases m stats :
  (exists r : vop_t,
     read_vop offsetof m stats = Some r /\
     members_readable offsetof vop_members m stats) \/
  (read_vop offsetof m stats = None /\
   ~ members_readable offsetof vop_members m stats).
Proof.
  unfold read_vop, read_int, read_ptr, members_readable.
  destruct (load_bytes m (lval offsetof stats data_vop_general) _) eqn:E1;
    [| right; split; [reflexivity | intros H; rewrite Forall_forall in H;
       apply (H data_vop_general); [cbn; tauto | exact E1]]].
  destruct (load_bytes m (lval offsetof stats data_vop_time_base) _) eqn:E2;
    [| right; split; [reflexivity | intros H; rewrite Forall_forall in H;
       apply (H data_vop_time_base); [cbn; tauto | exact E2]]].
  destruct (load_bytes m (lval offsetof stats data_vop_time_increment) _)
    eqn:E3;
    [| right; split; [reflexivity | intros H; rewrite Forall_forall in H;
       apply (H data_vop_time_increment); [cbn; tauto | exact E3]]].
  destruct (load_bytes m (lval offsetof stats data_vop_qscale) _) eqn:E4;
    [| right; split; [reflexivity | intros H; rewrite Forall_forall in H;
       apply (H data_vop_qscale); [cbn; tauto | exact E4]]].
  destruct (load_bytes m (lval offsetof stats data_vop_qscale_stride) _)
    eqn:E5;
    [| right; split; [reflexivity | intros H; rewrite Forall_forall in H;
       apply (H data_vop_qscale_stride); [cbn; tauto | exact E5]]].
  left. eexists. split; [reflexivity |].
  unfold vop_members.
  repeat (apply Forall_cons; [cbn [member_type]; congruence |]).
  apply Forall_nil.
Qed.

(** The stream arm reads as a record exactly when its six members are
    mapped. *)
Lemma read_vol_cases m stats :
  (exists r : vol_t,
     read_vol offsetof m stats = Some r /\
     members_readable offsetof vol_members m stats) \/
  (read_vol offsetof m stats = None /\
   ~ members_readable offsetof vol_members m stats).
Proof.
  unfold read_vol, read_int, members_readable.
  destruct (load_bytes m (lval offsetof stats data_vol_general) _) eqn:E1;
    [| right; split; [reflexivity | intros H; rewrite Forall_forall in H;
       apply (H data_vol_general); [cbn; tauto | exact E1]]].
  destruct (load_bytes m (lval offsetof stats data_vol_width) _) eqn:E2;
    [| right; split; [reflexivity | intros H; rewrite Forall_forall in H;
       apply (H data_vol_width); [cbn; tauto | exact E2]]].
  destruct (load_bytes m (lval offsetof stats data_vol_height) _) eqn:E3;
    [| right; split; [reflexivity | intros H; rewrite Forall_forall in H;
       apply (H data_vol_height); [cbn; tauto | exact E3]]].
  destruct (load_bytes m (lval offsetof stats data_vol_par) _) eqn:E4;
    [| right; split; [reflexivity | intros H; rewrite Forall_forall in H;
       apply (H data_vol_par); [cbn; tauto | exact E4]]].
  destruct (load_bytes m (lval offsetof stats data_vol_par_width) _) eqn:E5;
    [| right; split; [reflexivity | intros H; rewrite Forall_forall in H;
       apply (H data_vol_par_width); [cbn; tauto | exact E5]]].
  destruct (load_bytes m (lval offsetof stats data_vol_par_height) _) eqn:E6;
    [| right; split; [reflexivity | intros H; rewrite Forall_forall in H;
       apply (H data_vol_par_height); [cbn; tauto | exact E6]]].
  left. eexists. split; [reflexivity |].
  unfold vol_members.
  repeat (apply Forall_cons; [cbn [member_type]; congruence |]).
  apply Forall_nil.
Qed.

(** X1.  Neither extractor checks its argument.  [vop_data] returns a
    record when the five members of the frame arm are mapped, whatever
    becomes of the tag and of the rest of the structure; when one of them
    is not (a null or dangling [stats], an allocation cut short) its
    behaviour is undefined.  [vol_data] likewise, with the six members of
    the stream arm. *)
Theorem extractors_need_their_own_arm s stats :
  (members_readable offsetof vop_members (st_mem s) stats ->
   exists (r : vop_t) (s' : state), vop_data offsetof stats s = Returned r s')
  /\
  (~ members_readable offsetof vop_members (st_mem s) stats ->
   vop_data offsetof stats s = Undefined) /\
  (members_readable offsetof vol_members (st_mem s) stats ->
   exists (r : vol_t) (s' : state), vol_data offsetof stats s = Returned r s')
  /\
  (~ members_readable offsetof vol_members (st_mem s) stats ->
   vol_data offsetof stats s = Undefined).
Proof.
  rewrite vop_data_run, vol_data_run.
  destruct (read_vop_cases (st_mem s) stats) as [(r & -> & Hr) | (-> & Hn)];
    destruct (read_vol_cases (st_mem s) stats) as [(v & -> & Hv) | (-> & Hm)];
    repeat split; intros; eauto; contradiction.
Qed.
End Reach.

Section Touch.
Context {width : Z} {BW : Bitwidth width}.
Context {bo : ByteOrder}.
Context {word : word.word width} {word_ok : word.ok word}.
Context {mem : map.map word byte}.
Context {host : Type}.
Variable offsetof : member -> Z.

Local Abbreviation state := (@state width word mem host).
Local Abbreviation vop_t := (@vop_t width word).

Implicit Types (m : mem) (s : state) (stats : word).

Lemma bytes_read_after_loads s (fs : list member) stats :
  bytes_read
    (st_trace (after_loads s (List.map (member_load offsetof stats) fs))) =
  bytes_read (st_trace s) ++ member_bytes offsetof stats fs.
Proof.
  unfold bytes_read, member_bytes. cbn [st_trace after_loads].
  rewrite loads_loads, flat_map_app. f_equal.
  induction fs as [| f fs IH]; cbn; [reflexivity | now rewrite IH].
Qed.

(** The bytes of a member that lies within the structure lie within it. *)
Lemma footprint_within stats (size : Z) (f : member) :
  member_within (width := width) offsetof size f ->
  Forall (within stats size)
    (footprint (lval offsetof stats f)
       (sizeof (width := width) (member_type f))).
Proof.
  intros [Hlo Hhi]. apply Forall_forall. intros a Ha.
  unfold footprint in Ha.
  apply in_map_iff in Ha as (i & <- & Hi%in_seq).
  exists (offsetof f + Z.of_nat i). split; [lia |].
  unfold lval. rewrite word.ring_morph_add. apply eq_sym, word.add_assoc.
Qed.

Lemma member_bytes_within stats (size : Z) (fs : list member) :
  (forall f, In f fs -> member_within (width := width) offsetof size f) ->
  Forall (within stats size) (member_bytes offsetof stats fs).
Proof.
  unfold member_bytes. induction fs as [| f fs IH]; intros Hfs; cbn.
  - apply Forall_nil.
  - apply Forall_app. split.
    + apply footprint_within, Hfs. now left.
    + apply IH. intros g Hg. apply Hfs. now right.
Qed.

Lemma length_member_bytes stats (fs : list member) :
  length (member_bytes offsetof stats fs) =
  list_sum (List.map (fun f => sizeof (width := width) (member_type f)) fs).
Proof.
  unfold member_bytes. induction fs as [| f fs IH]; cbn; [reflexivity |].
  now rewrite length_app, length_footprint, IH.
Qed.

(** X2.  An extractor reads inside the structure and nowhere else.  The
    bytes [vop_data] reads are those of the five frame members, each once
    (four [int]s and a pointer); the bytes [vol_data] reads are the 24
    bytes of the six stream members.  If the members lie within the first
    [size] bytes of the structure, every byte read is among the [size]
    bytes at [stats]. *)
Theorem extractors_read_inside_the_blob (size : Z) s stats :
  (forall f : member,
     In f (vop_members ++ vol_members) ->
     member_within (width := width) offsetof size f) ->
  (members_readable offsetof vop_members (st_mem s) stats ->
   exists (r : vop_t) (s' : state),
     vop_data offsetof stats s = Returned r s' /\
     bytes_read (st_trace s') =
       bytes_read (st_trace s) ++ member_bytes offsetof stats vop_members /\
     Forall (within stats size) (member_bytes offsetof stats vop_members) /\
     length (member_bytes offsetof stats vop_members) =
       (16 + sizeof (width := width) Tptr)%nat) /\
  (members_readable offsetof vol_members (st_mem s) stats ->
   exists (r : vol_t) (s' : state),
     vol_data offsetof stats s = Returned r s' /\
     bytes_read (st_trace s') =
       bytes_read (st_trace s) ++ member_bytes offsetof stats vol_members /\
     Forall (within stats size) (member_bytes offsetof stats vol_members) /\
     length (member_bytes offsetof stats vol_members) = 24%nat).
Proof.
  intros Hin. rewrite vop_data_run, vol_data_run. split; intros Hr.
  - destruct (read_vop_cases offsetof (st_mem s) stats)
      as [(r & -> & _) | (_ & Hn)]; [| contradiction].
    eexists r, _.
    split; [reflexivity |]. split; [apply bytes_read_after_loads |]. split.
    + apply member_bytes_within. intros f Hf. apply Hin, in_or_app. now left.
    + rewrite length_member_bytes. cbn. lia.
  - destruct (read_vol_cases offsetof (st_mem s) stats)
      as [(r & -> & _) | (_ & Hn)]; [| contradiction].
    eexists r, _.
    split; [reflexivity |]. split; [apply bytes_read_after_loads |]. split.
    + apply member_bytes_within. intros f Hf. apply Hin, in_or_app. now right.
    + rewrite length_member_bytes. reflexivity.
Qed.

(** X3.  Both arms belong to one union and begin alike.  On a layout that
    gives the common initial sequence of the two arms the same offsets, a
    blob read through either arm yields the same first three integers:
    [general] is the same in both records, [time_base] is [width] and
    [time_increment] is [height]. *)
Theorem arms_share_their_first_members s stats :
  common_initial_sequence offsetof ->
  members_readable offsetof vop_members (st_mem s) stats ->
  members_readable offsetof vol_members (st_mem s) stats ->
  exists (f : vop_t) (sf : state) (v : vol_t) (sv : state),
    vop_data offsetof stats s = Returned f sf /\
    vol_data offsetof stats s = Returned v sv /\
    vop_general f = vol_general v /\
    vop_time_base f = vol_width v /\
    vop_time_increment f = vol_height v.
Proof.
  intros (Hg & Hb & Hi) Hvop Hvol. rewrite vop_data_run, vol_data_run.
  destruct (read_vop_cases offsetof (st_mem s) stats)
    as [(f & Hf & _) | (_ & Hn)]; [| contradiction].
  destruct (read_vol_cases offsetof (st_mem s) stats)
    as [(v & Hv & _) | (_ & Hn)]; [| contradiction].
  rewrite Hf, Hv. eexists f, _, v, _.
  split; [reflexivity |]. split; [reflexivity |].
  unfold read_vop, read_vol, lval in Hf, Hv. rewrite Hg, Hb, Hi in Hf.
  destruct (read_int _ (word.add stats (word.of_Z (offsetof data_vol_general))));
    [| discriminate].
  destruct (read_int _ (word.add stats (word.of_Z (offsetof data_vol_width))));
    [| discriminate].
  destruct (read_int _ (word.add stats (word.of_Z (offsetof data_vol_height))));
    [| discriminate].
  destruct (read_ptr _ _); [| discriminate].
  destruct (read_int _ (word.add stats
                          (word.of_Z (offsetof data_vop_qscale_stride))));
    [| discriminate].
  destruct (read_int _ _); [| discriminate].
  destruct (read_int _ _); [| discriminate].
  destruct (read_int _ _); [| discriminate].
  injection Hf as <-. injection Hv as <-. cbn. auto.
Qed.

(** X4.  Extraction can be repeated and combined at will.  Extracting the
    frame twice in a row gives the same record twice; extracting the frame
    and then the stream, or the stream and then the frame, gives what each
    extractor gives on its own; and if one of the two is undefined, so is
    the sequence. *)
Theorem extraction_composes s stats :
  result ((r1 <- vop_data offsetof stats ;;
           r2 <- vop_data offsetof stats ;;
           ret (r1, r2)) s)
  = option_map (fun r => (r, r)) (result (vop_data offsetof stats s)) /\
  result ((f <- vop_data offsetof stats ;;
           v <- vol_data offsetof stats ;;
           ret (f, v)) s)
  = match result (vop_data offsetof stats s),
          result (vol_data offsetof stats s) with
    | Some f, Some v => Some (f, v)
    | _, _ => None
    end /\
  result ((v <- vol_data offsetof stats ;;
           f <- vop_data offsetof stats ;;
           ret (f, v)) s)
  = match result (vop_data offsetof stats s),
          result (vol_data offsetof stats s) with
    | Some f, Some v => Some (f, v)
    | _, _ => None
    end.
Proof.
  cbn [bind ret Monad_M].
  rewrite !vop_data_run, !vol_data_run.
  destruct (read_vop offsetof (st_mem s) stats) as [f |] eqn:Hf;
    destruct (read_vol offsetof (st_mem s) stats) as [v |] eqn:Hv;
    rewrite ?vop_data_run, ?vol_data_run; cbn [st_mem after_loads];
    rewrite ?Hf, ?Hv; repeat split; reflexivity.
Qed.
End Touch.

(** ** A series of callback events *)

Section Series.
Context {width : Z} {word : word.word width} {mem : map.map word byte}.
Context {host : Type}.
Variable pluginCallback : @handler width word mem host.

Local Abbreviation state := (@state width word mem host).
Local Abbreviation event := (@event width word).

Implicit Types (s : state) (es : list (word * Z * word * word)).

Lemma calls_call_events (tr : list event) es :
  calls (tr ++ List.map call_event es) = calls tr ++ es.
Proof.
  unfold calls. rewrite flat_map_app. f_equal.
  induction es as [| [[[handle opt] param1] param2] es IH]; cbn;
    [reflexivity | now rewrite IH].
Qed.

Lemma loads_call_events (tr : list event) es :
  loads (tr ++ List.map call_event es) = loads tr.
Proof.
  unfold loads. rewrite flat_map_app.
  induction es as [| [[[handle opt] param1] param2] es IH]; cbn;
    [apply app_nil_r | exact IH].
Qed.

(** A series of events, run on the machine: the events reach the handler
    in their order, each on the memory and host state the one before it
    left, until the series ends or the handler does not return. *)
Lemma deliver_run es : forall s,
  deliver pluginCallback es s =
  let tr :=
    st_trace s ++
    List.map call_event
      (firstn (delivered pluginCallback es (st_mem s) (st_host s)) es) in
  match answers pluginCallback es (st_mem s) (st_host s) with
  | Some (vs, m, h) =>
      Returned vs {| st_mem := m; st_host := h; st_trace := tr |}
  | None => Aborted tr
  end.
Proof.
  induction es as [| [[[handle opt] param1] param2] es IH]; intros s.
  - cbn. rewrite app_nil_r. now destruct s.
  - cbn [deliver answers delivered bind ret Monad_M].
    rewrite pluginCallback_cgo_run. cbv zeta.
    destruct (pluginCallback handle opt param1 param2 (st_mem s) (st_host s))
      as [v m h |]; [| reflexivity].
    rewrite IH. cbn [st_mem st_host st_trace]. cbv zeta.
    destruct (answers pluginCallback es m h) as [[[vs m'] h'] |];
      cbn [firstn List.map call_event]; now rewrite <- app_assoc.
Qed.

Lemma delivered_all es : forall (m : mem) (h : host) vs m' h',
  answers pluginCallback es m h = Some (vs, m', h') ->
  delivered pluginCallback es m h = length es /\ length vs = length es.
Proof.
  induction es as [| [[[handle opt] param1] param2] es IH];
    intros m h vs m' h'; cbn.
  - intros [= <- _ _]. split; reflexivity.
  - destruct (pluginCallback handle opt param1 param2 m h) as [v m1 h1 |];
      [| discriminate].
    destruct (answers pluginCallback es m1 h1) as [[[vs1 m2] h2] |] eqn:E;
      [| discriminate].
    intros [= <- _ _]. destruct (IH _ _ _ _ _ E) as [H1 H2].
    cbn [length]. now rewrite H1, H2.
Qed.

Lemma delivered_some es : forall (m : mem) (h : host),
  answers pluginCallback es m h = None ->
  (0 < delivered pluginCallback es m h <= length es)%nat.
Proof.
  induction es as [| [[[handle opt] param1] param2] es IH]; intros m h; cbn.
  - discriminate.
  - destruct (pluginCallback handle opt param1 param2 m h) as [v m1 h1 |];
      [| lia].
    destruct (answers pluginCallback es m1 h1) as [[[vs1 m2] h2] |] eqn:E;
      [discriminate |].
    intros _. specialize (IH _ _ E). lia.
Qed.

(** X5.  Events go through the trampoline in the order they are raised,
    each exactly once, and nothing is read on the way.  Whatever codes the
    handler returns, the next event is still delivered, and the codes come
    back in order, with memory and host state as the handler's successive
    invocations left them.  Only a handler that does not return ends the
    series: the events up to that one have been delivered, the later ones
    never are. *)
Theorem events_are_delivered_in_order es s :
  let o := deliver pluginCallback es s in
  let n := delivered pluginCallback es (st_mem s) (st_host s) in
  calls (trace_of o) = calls (st_trace s) ++ firstn n es /\
  loads (trace_of o) = loads (st_trace s) /\
  match answers pluginCallback es (st_mem s) (st_host s) with
  | Some (vs, m, h) =>
      n = length es /\ length vs = length es /\
      exists s' : state, o = Returned vs s' /\ st_mem s' = m /\ st_host s' = h
  | None =>
      (0 < n <= length es)%nat /\ o = Aborted (trace_of o)
  end.
Proof.
  cbv zeta. rewrite deliver_run. cbv zeta.
  destruct (answers pluginCallback es (st_mem s) (st_host s))
    as [[[vs m] h] |] eqn:E; cbn [trace_of st_trace];
    rewrite calls_call_events, loads_call_events.
  - destruct (delivered_all _ _ _ _ _ _ E) as [Hn Hvs].
    repeat split; eauto.
  - repeat split; try apply (delivered_some _ _ _ E).
Qed.
End Series.

(** ** Sample uses *)

Lemma lp64_short_vol_readable :
  members_readable LP64.offsetof vol_members
    (st_mem (LP64.init LP64more.short_mem)) LP64.stats.
Proof.
  unfold members_readable, vol_members.
  repeat (apply Forall_cons; [vm_compute; discriminate |]). apply Forall_nil.
Defined.

Lemma lp64_frame_vop_readable :
  members_readable LP64.offsetof vop_members
    (st_mem (LP64.init LP64.frame_mem)) LP64.stats.
Proof.
  unfold members_readable, vop_members.
  repeat (apply Forall_cons; [vm_compute; discriminate |]). apply Forall_nil.
Defined.

Lemma lp64_stream_vop_readable :
  members_readable LP64.offsetof vop_members
    (st_mem (LP64.init LP64.stream_mem)) LP64.stats.
Proof.
  unfold members_readable, vop_members.
  repeat (apply Forall_cons; [vm_compute; discriminate |]). apply Forall_nil.
Defined.

Lemma lp64_stream_vol_readable :
  members_readable LP64.offsetof vol_members
    (st_mem (LP64.init LP64.stream_mem)) LP64.stats.
Proof.
  unfold members_readable, vol_members.
  repeat (apply Forall_cons; [vm_compute; discriminate |]). apply Forall_nil.
Defined.

Lemma lp64_members_within (f : member) :
  In f (vop_members ++ vol_members) ->
  member_within (width := 64) LP64.offsetof LP64more.sizeof_stats f.
Proof.
  intros _. unfold member_within.
  destruct f; split; vm_compute; discriminate.
Defined.

Lemma lp64_common_initial_sequence : common_initial_sequence LP64.offsetof.
Proof. repeat split. Defined.

(** An allocation that ends with the stream arm serves [vol_data] and not
    [vop_data], whose [qscale_stride] lies beyond it; and a null [stats] is
    followed like any other pointer. *)
Lemma extractors_need_their_own_arm_witness :
  (exists r s',
     vol_data LP64.offsetof LP64.stats (LP64.init LP64more.short_mem)
       = Returned r s') /\
  vop_data LP64.offsetof LP64.stats (LP64.init LP64more.short_mem)
    = Undefined /\
  vop_data LP64.offsetof NULL (LP64.init LP64.frame_mem) = Undefined.
Proof.
  split; [| split].
  - apply (extractors_need_their_own_arm LP64.offsetof
             (LP64.init LP64more.short_mem) LP64.stats).
    exact lp64_short_vol_readable.
  - apply (extractors_need_their_own_arm LP64.offsetof
             (LP64.init LP64more.short_mem) LP64.stats).
    intros H. unfold members_readable in H. rewrite Forall_forall in H.
    apply (H data_vop_qscale_stride); [cbn; tauto |].
    vm_compute. reflexivity.
  - apply (extractors_need_their_own_arm LP64.offsetof
             (LP64.init LP64.frame_mem) NULL).
    intros H. unfold members_readable in H. rewrite Forall_forall in H.
    apply (H data_vop_general); [cbn; tauto |].
    vm_compute. reflexivity.
Defined.

(** On the sample frame the 24 bytes read by [vop_data] all lie among the
    40 bytes of the structure. *)
Lemma extractors_read_inside_the_blob_witness :
  exists r s',
    vop_data LP64.offsetof LP64.stats (LP64.init LP64.frame_mem)
      = Returned r s' /\
    bytes_read (st_trace s') =
      bytes_read (st_trace (LP64.init LP64.frame_mem)) ++
      member_bytes LP64.offsetof LP64.stats vop_members /\
    Forall (within LP64.stats LP64more.sizeof_stats)
      (member_bytes LP64.offsetof LP64.stats vop_members) /\
    length (member_bytes LP64.offsetof LP64.stats vop_members) = 24%nat.
Proof.
  exact (proj1 (extractors_read_inside_the_blob LP64.offsetof
                  LP64more.sizeof_stats (LP64.init LP64.frame_mem)
                  LP64.stats lp64_members_within)
           lp64_frame_vop_readable).
Defined.

(** The sample stream through both arms: [time_base] is the picture's
    width, [time_increment] its height. *)
Lemma arms_share_their_first_members_witness :
  exists f sf v sv,
    vop_data LP64.offsetof LP64.stats (LP64.init LP64.stream_mem)
      = Returned f sf /\
    vol_data LP64.offsetof LP64.stats (LP64.init LP64.stream_mem)
      = Returned v sv /\
    vop_general f = vol_general v /\
    vop_time_base f = vol_width v /\
    vop_time_increment f = vol_height v.
Proof.
  exact (arms_share_their_first_members LP64.offsetof
           (LP64.init LP64.stream_mem) LP64.stats
           lp64_common_initial_sequence
           lp64_stream_vop_readable lp64_stream_vol_readable).
Defined.

(** Three events and a handler that serves one and gives up on the second:
    the first two reach the handler, the third never does. *)
Lemma events_are_delivered_in_order_witness :
  calls (trace_of (deliver LP64more.Honce LP64more.events LP64more.fresh))
  = [(LP64.ptr 1, 7, NULL, NULL); (LP64.ptr 1, 8, LP64.stats, NULL)] /\
  result (deliver LP64more.Honce LP64more.events LP64more.fresh) = None /\
  result (deliver LP64more.Honce [(LP64.ptr 1, 7, NULL, NULL)]
            LP64more.fresh) = Some [7].
Proof.
  destruct (events_are_delivered_in_order LP64more.Honce LP64more.events
              LP64more.fresh) as (Hcalls & _ & _ & Habort).
  split; [exact Hcalls |]. split.
  - rewrite Habort. reflexivity.
  - destruct (events_are_delivered_in_order LP64more.Honce
                [(LP64.ptr 1, 7, NULL, NULL)] LP64more.fresh)
      as (_ & _ & _ & _ & s' & Hrun & _).
    rewrite Hrun. reflexivity.
Defined.
